(** * Economics Quiz: the WebSocket server's session engine

    A shallow embedding of the quiz server (the [ws] server script, in its
    two versions: the documented one, which knows the [admin-restart] and
    [return-to-lobby] messages, and the earlier compact one, which does
    not), followed by the properties of its state machine.

    Conventions of the embedding.
    - JavaScript numbers that the server stores or compares are integers
      and are modelled in [Z]; the one place where an arbitrary number can
      arrive, [Number(data.optionIndex)], is a [jsnum].
    - A JavaScript string is a Rocq [string] under a fixed encoding that
      sends the empty string to the empty string and ASCII text to itself.
      The built-ins the server calls on strings it receives ([trim],
      [slice], [length]) are not given by the source: they are the methods
      of the class [JSString], over which the engine and its properties
      are stated.  [latin1] is the instance for the strings whose UTF-16
      code units are all below 256, one character per code unit; the
      sample game runs on it.
    - The objects [session.answers] and [session.scores] are used as maps
      from client ids to values: they are [gmap string _], which holds
      the own properties.  A read [obj[k]] also finds what every object
      inherits from [Object.prototype]: the test of the [answer] handler
      models it ([has_property]).  The handler therefore never records an
      answer under an inherited name, and the scoring loop, which reads
      [session.scores] under the own keys of [session.answers] only, is
      modelled for keys that are not inherited names.
      [Object.entries], [Object.values] and [Object.keys] enumerate a map
      through [map_to_list]; nothing below depends on the order.
    - [clients] is a [Map] keyed by socket objects: an insertion-ordered
      association list keyed by a socket handle.
    - What a handler reads from outside the program, the clock
      ([Date.now()]) and the sockets' [readyState], is an [Env]; one
      reading of the clock serves a whole handler run.
    - What a handler does to the outside, frames sent and console lines,
      is the list of [Effect]s a command returns.  An exception that
      leaves a handler is the effect [Uncaught]: nothing catches it, the
      process exits, and no event is handled after it ([run] stops). *)

From Stdlib Require Import ZArith Lia.
From stdpp Require Import base strings gmap list fin_maps.

Local Open Scope Z_scope.

(** ** Data *)

Inductive Phase := Lobby | Question | Reveal | Ended.

Global Instance Phase_eq_dec : EqDecision Phase.
Proof. solve_decision. Defined.

Record QuestionItem := mkQuestion {
  q_id : string;
  q_prompt : string;
  q_options : list string;
  q_correct : Z
}.

(** The value of [Number(x)]: an integer, or anything else (a fraction,
    [NaN], an infinity). *)
Inductive jsnum := JInt (z : Z) | JNonInt.

Global Instance jsnum_eq_dec : EqDecision jsnum.
Proof. solve_decision. Defined.

(** A field of a parsed JSON message. *)
Inductive jsval :=
  | JUndefined
  | JNull
  | JBool (b : bool)
  | JNumber (n : jsnum)
  | JString (s : string)
  | JObject.

Record Answer := mkAnswer { optionIndex : jsnum; ts : Z }.

Record Session := mkSession {
  phase : Phase;
  questionIndex : Z;
  endsAt : option Z;
  answers : gmap string Answer;
  scores : gmap string Z
}.

Record ClientMeta := mkMeta { clientId : string; color : string; name : string }.

Record World := mkWorld {
  session : Session;
  clients : list (nat * ClientMeta)
}.

Record Env := mkEnv { now : Z; readyOpen : nat → bool }.

Record QuestionView := mkView {
  v_id : string;
  v_prompt : string;
  v_options : list string;
  v_correct : option Z
}.

Record Player := mkPlayer { p_id : string; p_name : string; p_color : string }.

Record Snapshot := mkSnapshot {
  s_phase : Phase;
  s_questionIndex : Z;
  s_totalQuestions : nat;
  s_timeLeft : Z;
  s_question : option QuestionView;
  s_counts : list Z;
  s_totalAnswers : nat;
  s_answers : gmap string Answer;
  s_scores : gmap string Z;
  s_youAnswered : option jsnum;
  s_players : list Player
}.

Inductive Frame :=
  | InitFrame (id col nm : string) (state : Snapshot)
  | StateFrame (state : Snapshot).

Inductive Effect :=
  | Send (ws : nat) (f : Frame)
  | Log (line : string) (arg : option jsval)
  | Uncaught (error : string).

(** Messages, after [JSON.parse] and the dispatch on [data.type].  The
    [Answer_] message carries [Number(data.optionIndex)].  [NullFrame] is
    the frame [null], the one JSON value that has no [type] to read;
    every other value without a known [type] is [Unrecognised]. *)
Inductive Msg :=
  | Resume (id nm col : jsval)
  | SetName (nm : jsval)
  | Start
  | Answer_ (n : jsnum)
  | Next
  | AdminRestart (password : jsval)
  | ReturnToLobby
  | Unrecognised
  | NullFrame.

(** The events of the single event queue.  [Message ws None] is a frame
    that is not JSON. *)
Inductive Event :=
  | Connect (ws : nat) (id col : string)
  | Message (ws : nat) (data : option Msg)
  | Close (ws : nat)
  | Tick.

(** The two versions of the server script. *)
Inductive Version := Documented | Compact.

(** ** Configuration *)

Definition QUESTION_DURATION_MS : Z := 15000.

Definition ADMIN_PASSWORD : string := "1234".

(** Only the documented version configures a passphrase. *)
Definition configured_passphrase (v : Version) : option string :=
  match v with Documented => Some ADMIN_PASSWORD | Compact => None end.

Definition questions : list QuestionItem := [
  mkQuestion "q1" "What is inflation?"
    ["A general rise in prices"; "A drop in all prices"; "Only stock prices rising"; "Interest rates falling"] 0;
  mkQuestion "q2" "GDP stands for?"
    ["Gross Domestic Product"; "Global Debt Position"; "Government Deposit Portfolio"; "General Demand Price"] 0;
  mkQuestion "q3" "A budget is balanced when?"
    ["Spending is below revenue"; "Spending equals revenue"; "Spending is double revenue"; "There is no tax collected"] 1;
  mkQuestion "q4" "A central bank mainly does what?"
    ["Prints textbooks"; "Manages money supply and interest rates"; "Sets grocery prices"; "Runs private banks"] 1;
  mkQuestion "q5" "If demand rises and supply stays the same, price usually?"
    ["Goes up"; "Goes down"; "Stays the same"; "Becomes zero"] 0;
  mkQuestion "q6" "Which of these is money?"
    ["Bank deposits"; "Movie tickets"; "Coupons"; "A promise on paper"] 0;
  mkQuestion "q7" "The unemployment rate measures?"
    ["Everyone without a job"; "People not working and not looking"; "The share of the labor force looking for work"; "Only students"] 2;
  mkQuestion "q8" "Trade can make countries better off because of?"
    ["Self-sufficiency"; "Comparative advantage"; "Zero imports"; "Equal wages everywhere"] 1;
  mkQuestion "q9" "Higher interest rates usually make borrowing?"
    ["Cheaper"; "More expensive"; "Free"; "Impossible"] 1;
  mkQuestion "q10" "Saving vs investing: which is true?"
    ["Saving never has risk"; "Investing can pay more but has risk"; "Both always lose money"; "Investing has no risk"] 1
]%string.

Definition initial_session : Session := mkSession Lobby (-1) None ∅ ∅.
Definition initial_world : World := mkWorld initial_session [].

(** ** JavaScript helpers *)

(** Truthiness of a string and of a number. *)
Definition truthy_string (s : string) : bool :=
  match s with EmptyString => false | _ => true end.

Definition truthy_Z (z : Z) : bool := negb (z =? 0).

(** The string built-ins the server calls: [s.trim()], [s.slice(0, n)]
    and [s.length], with the facts about them that the properties below
    use: the empty string has length 0, [s.slice(0, n).length <= n], and
    [s.slice(0, n + 1)] of a non-empty [s] is not empty.  Lengths and
    cuts are in UTF-16 code units. *)
Class JSString := {
  trim : string → string;
  slice0 : nat → string → string;
  js_length : string → nat;
  js_length_empty : js_length "" = 0%nat;
  length_slice0 : ∀ n s, (js_length (slice0 n s) ≤ n)%nat;
  slice0_nonempty : ∀ n s, s ≠ ""%string → slice0 (S n) s ≠ ""%string
}.

(** The instance for strings of code units below 256.  The white space
    and line terminators of JavaScript in that range are the code units
    9 to 13, 32 and 160. *)
Definition latin1_space (a : Strings.Ascii.ascii) : bool :=
  Ascii.is_space a || Strings.Ascii.eqb a (Strings.Ascii.ascii_of_nat 160).

Fixpoint trimStart (s : string) : string :=
  match s with
  | String a r => if latin1_space a then trimStart r else s
  | EmptyString => EmptyString
  end.

Definition latin1_trim (s : string) : string :=
  String.rev (trimStart (String.rev (trimStart s))).

Definition latin1_slice0 (n : nat) (s : string) : string := String.substring 0 n s.

Global Instance latin1 : JSString.
Proof.
  refine {| trim := latin1_trim; slice0 := latin1_slice0; js_length := String.length |}.
  - reflexivity.
  - intros n. induction n as [|n IH]; intros [|a s]; simpl; try lia.
    specialize (IH s). unfold latin1_slice0 in IH. lia.
  - intros n [|a s] Hs; [done|]. simpl. discriminate.
Defined.

(** The names every object inherits from [Object.prototype]; each of them
    is a function or, for [__proto__], the prototype object: all truthy. *)
Definition Object_prototype_names : list string := [
  "constructor"; "__defineGetter__"; "__defineSetter__"; "hasOwnProperty";
  "__lookupGetter__"; "__lookupSetter__"; "isPrototypeOf"; "propertyIsEnumerable";
  "toString"; "valueOf"; "__proto__"; "toLocaleString"
]%string.

Definition inherited (k : string) : bool := bool_decide (k ∈ Object_prototype_names).

(** The truthiness of [obj[k]] for an object whose own values are all
    truthy: an own property, or an inherited one. *)
Definition has_property {A} (o : gmap string A) (k : string) : bool :=
  match o !! k with
  | Some _ => true
  | None => inherited k
  end.

Definition Number_isInteger (n : jsnum) : bool :=
  match n with JInt _ => true | JNonInt => false end.

(** [n === c] for a number [n] and an integer [c]. *)
Definition strict_eq_num (n : jsnum) (c : Z) : bool :=
  match n with JInt z => z =? c | JNonInt => false end.

(** [arr[i]] for an integer [i]: [undefined] outside the array. *)
Definition array_get {A} (arr : list A) (i : Z) : option A :=
  if i <? 0 then None else arr !! Z.to_nat i.

Definition Object_entries {A} (o : gmap string A) : list (string * A) := map_to_list o.
Definition Object_values {A} (o : gmap string A) : list A := (map_to_list o).*2.
Definition Object_keys {A} (o : gmap string A) : list string := (map_to_list o).*1.

(** ** The registry [clients] *)

Definition clients_get (ws : nat) (cs : list (nat * ClientMeta)) : option ClientMeta :=
  snd <$> List.find (λ c, Nat.eqb (fst c) ws) cs.

Fixpoint clients_set (ws : nat) (m : ClientMeta) (cs : list (nat * ClientMeta))
    : list (nat * ClientMeta) :=
  match cs with
  | [] => [(ws, m)]
  | c :: r => if Nat.eqb (fst c) ws then (ws, m) :: r else c :: clients_set ws m r
  end.

Definition clients_delete (ws : nat) (cs : list (nat * ClientMeta)) : list (nat * ClientMeta) :=
  List.filter (λ c, negb (Nat.eqb (fst c) ws)) cs.

(** ** Commands: a world transformer that also reports its effects *)

Definition Cmd := World → World * list Effect.

Definition skip : Cmd := λ w, (w, []).

Definition seq (c1 c2 : Cmd) : Cmd := λ w,
  let '(w1, e1) := c1 w in
  let '(w2, e2) := c2 w1 in
  (w2, e1 ++ e2).

Declare Scope cmd_scope.
Delimit Scope cmd_scope with cmd.
Notation "c1 ;; c2" := (seq c1 c2)
  (at level 100, c2 at level 200, right associativity) : cmd_scope.
Local Open Scope cmd_scope.

Definition emit (es : list Effect) : Cmd := λ w, (w, es).

(** Whether an exception has left the handler. *)
Definition has_uncaught (es : list Effect) : bool :=
  existsb (λ x, match x with Uncaught _ => true | _ => false end) es.

Definition modify_session (f : Session → Session) : Cmd := λ w,
  (mkWorld (f (session w)) (clients w), []).

Definition modify_clients (f : list (nat * ClientMeta) → list (nat * ClientMeta)) : Cmd := λ w,
  (mkWorld (session w) (f (clients w)), []).

(** [if (b) c]: the test reads the world the command starts in. *)
Definition when (b : World → bool) (c : Cmd) : Cmd := λ w, if b w then c w else skip w.

Definition ifelse (b : World → bool) (c1 c2 : Cmd) : Cmd := λ w, if b w then c1 w else c2 w.

(** The assignments to the fields of [session]. *)
Definition set_phase (p : Phase) : Cmd :=
  modify_session (λ s, mkSession p (questionIndex s) (endsAt s) (answers s) (scores s)).
Definition set_questionIndex (i : Z) : Cmd :=
  modify_session (λ s, mkSession (phase s) i (endsAt s) (answers s) (scores s)).
Definition set_endsAt (d : option Z) : Cmd :=
  modify_session (λ s, mkSession (phase s) (questionIndex s) d (answers s) (scores s)).
Definition set_answers (a : gmap string Answer) : Cmd :=
  modify_session (λ s, mkSession (phase s) (questionIndex s) (endsAt s) a (scores s)).
Definition set_scores (sc : gmap string Z) : Cmd :=
  modify_session (λ s, mkSession (phase s) (questionIndex s) (endsAt s) (answers s) sc).

(** ** The session engine

    The engine is written over an arbitrary question bank [qs]; the server's
    own bank is [questions]. *)

Section Engine.

Context {JS : JSString}.
Variable qs : list QuestionItem.

Definition in_phase (p : Phase) (w : World) : bool :=
  bool_decide (phase (session w) = p).

(** [currentQuestion]: every question object is truthy, so the test is
    the one of the index being inside the array. *)
Definition currentQuestion (s : Session) : option QuestionItem :=
  array_get qs (questionIndex s).

(** The body of the [forEach] of [calcCounts]. *)
Definition count_answer (counts : list Z) (a : Answer) : list Z :=
  match optionIndex a with
  | JInt i =>
      match array_get counts i with
      | Some c => <[Z.to_nat i := c + 1]> counts
      | None => counts
      end
  | JNonInt => counts
  end.

Definition calcCounts (s : Session) : list Z :=
  foldl count_answer (replicate 4 0) (Object_values (answers s)).

Definition timeLeft (e : Env) (s : Session) : Z :=
  match endsAt s with
  | Some d =>
      if bool_decide (phase s = Question) && truthy_Z d then Z.max 0 (d - now e) else 0
  | None => 0
  end.

Definition deriveState (e : Env) (w : World) (viewerId : string) : Snapshot :=
  let s := session w in
  let question := currentQuestion s in
  let counts := calcCounts s in
  {| s_phase := phase s;
     s_questionIndex := questionIndex s;
     s_totalQuestions := length qs;
     s_timeLeft := timeLeft e s;
     s_question :=
       match question with
       | Some q =>
           Some (mkView (q_id q) (q_prompt q) (q_options q)
                   (if bool_decide (phase s = Reveal) then Some (q_correct q) else None))
       | None => None
       end;
     s_counts := counts;
     s_totalAnswers := length (Object_keys (answers s));
     s_answers := answers s;
     s_scores := scores s;
     s_youAnswered :=
       if truthy_string viewerId then optionIndex <$> (answers s !! viewerId) else None;
     s_players := (λ c, mkPlayer (clientId c.2) (name c.2) (color c.2)) <$> clients w |}.

Definition broadcastState (e : Env) : Cmd := λ w,
  (w, flat_map (λ c, if readyOpen e c.1
                     then [Send c.1 (StateFrame (deriveState e w (clientId c.2)))]
                     else []) (clients w)).

Definition startQuestion (e : Env) (index : Z) : Cmd :=
  set_phase Question ;;
  set_questionIndex index ;;
  set_answers ∅ ;;
  set_endsAt (Some (now e + QUESTION_DURATION_MS)) ;;
  broadcastState e.

(** The body of the [forEach] of [revealQuestion]. *)
Definition award (q : QuestionItem) (sc : gmap string Z) (entry : string * Answer)
    : gmap string Z :=
  if strict_eq_num (optionIndex entry.2) (q_correct q)
  then <[entry.1 := (match sc !! entry.1 with
                     | Some n => if truthy_Z n then n else 0
                     | None => 0
                     end) + 1]> sc
  else sc.

Definition award_all (q : QuestionItem) (s : Session) : gmap string Z :=
  foldl (award q) (scores s) (Object_entries (answers s)).

Definition revealQuestion (e : Env) : Cmd := λ w,
  if negb (in_phase Question w) then skip w
  else
    (set_phase Reveal ;;
     set_endsAt None ;;
     (λ w, match currentQuestion (session w) with
           | Some question => set_scores (award_all question (session w)) w
           | None => skip w
           end) ;;
     broadcastState e) w.

Definition nextQuestion (e : Env) : Cmd :=
  ifelse (λ w, questionIndex (session w) + 1 <? Z.of_nat (length qs))
    (λ w, startQuestion e (questionIndex (session w) + 1) w)
    (set_phase Ended ;; set_endsAt None ;; broadcastState e).

(** *** The message handlers *)

Definition onResume (e : Env) (ws : nat) (meta : ClientMeta) (id nm col : jsval) : Cmd :=
  let m1 := match id with
            | JString x =>
                if (4 <? js_length (trim x))%nat
                then mkMeta (trim x) (color meta) (name meta) else meta
            | _ => meta
            end in
  let m2 := match nm with
            | JString x =>
                if truthy_string (trim x)
                then mkMeta (clientId m1) (color m1) (slice0 24 (trim x)) else m1
            | _ => m1
            end in
  let m3 := match col with
            | JString x =>
                if truthy_string (trim x)
                then mkMeta (clientId m2) (trim x) (name m2) else m2
            | _ => m2
            end in
  modify_clients (clients_set ws m3) ;; broadcastState e.

Definition onSetName (e : Env) (ws : nat) (meta : ClientMeta) (nm : jsval) : Cmd :=
  match nm with
  | JString x =>
      if truthy_string (trim x)
      then modify_clients
             (clients_set ws (mkMeta (clientId meta) (color meta) (slice0 24 (trim x)))) ;;
           broadcastState e
      else skip
  | _ => skip
  end.

Definition onStart (v : Version) (e : Env) (meta : ClientMeta) : Cmd :=
  if negb (truthy_string (name meta)) then skip
  else
    when (λ w, in_phase Lobby w || in_phase Ended w)
      match v with
      | Documented => set_scores ∅ ;; set_answers ∅ ;; startQuestion e 0
      | Compact => set_scores ∅ ;; startQuestion e 0
      end.

Definition onAnswer (e : Env) (meta : ClientMeta) (n : jsnum) : Cmd := λ w,
  if negb (in_phase Question w) then skip w
  else if negb (truthy_string (name meta)) then skip w
  else
    match n with
    | JNonInt => skip w
    | JInt i =>
        if (i <? 0) || (3 <? i) then skip w
        else
          if has_property (answers (session w)) (clientId meta) then skip w
          else
            (set_answers (<[clientId meta := mkAnswer n (now e)]> (answers (session w))) ;;
             broadcastState e) w
    end.

Definition onNext (v : Version) (e : Env) : Cmd :=
  when (in_phase Reveal)
    match v with
    | Documented =>
        ifelse (λ w, Z.of_nat (length qs) <=? questionIndex (session w) + 1)
          (set_phase Ended ;; set_endsAt None ;; broadcastState e)
          (nextQuestion e)
    | Compact => nextQuestion e
    end.

Definition onAdminRestart (v : Version) (e : Env) (password : jsval) : Cmd :=
  match v with
  | Documented =>
      emit [Log "Admin restart requested, password:" (Some password)] ;;
      match password with
      | JString p =>
          if String.eqb p ADMIN_PASSWORD
          then set_phase Question ;;
               set_questionIndex 0 ;;
               set_endsAt (Some (now e + QUESTION_DURATION_MS)) ;;
               set_answers ∅ ;;
               set_scores ∅ ;;
               emit [Log "Admin restart executed - starting from question 1" None] ;;
               broadcastState e
          else emit [Log "Admin restart failed: incorrect password" None]
      | _ => emit [Log "Admin restart failed: incorrect password" None]
      end
  | Compact => skip
  end.

Definition onReturnToLobby (v : Version) (e : Env) : Cmd :=
  match v with
  | Documented =>
      when (in_phase Ended)
        (set_phase Lobby ;;
         set_questionIndex (-1) ;;
         set_endsAt None ;;
         set_answers ∅ ;;
         set_scores ∅ ;;
         broadcastState e)
  | Compact => skip
  end.

Definition onMessage (v : Version) (e : Env) (ws : nat) (message : option Msg) : Cmd := λ w,
  match message with
  | None => skip w
  | Some data =>
      match clients_get ws (clients w) with
      | None => skip w
      | Some meta =>
          match data with
          | Resume id nm col => onResume e ws meta id nm col w
          | SetName nm => onSetName e ws meta nm w
          | Start => onStart v e meta w
          | Answer_ n => onAnswer e meta n w
          | Next => onNext v e w
          | AdminRestart password => onAdminRestart v e password w
          | ReturnToLobby => onReturnToLobby v e w
          | Unrecognised => skip w
          | NullFrame =>
              emit [Uncaught "TypeError: Cannot read properties of null (reading 'type')"] w
          end
      end
  end.

Definition onConnection (e : Env) (ws : nat) (id col : string) : Cmd :=
  modify_clients (clients_set ws (mkMeta id col "")) ;;
  (λ w, (w, [Send ws (InitFrame id col "" (deriveState e w id))])).

Definition onClose (e : Env) (ws : nat) : Cmd :=
  modify_clients (clients_delete ws) ;; broadcastState e.

(** The [setInterval] callback. *)
Definition onTick (e : Env) : Cmd :=
  when (λ w, in_phase Question w &&
             match endsAt (session w) with
             | Some d => truthy_Z d && (d <=? now e)
             | None => false
             end)
    (revealQuestion e).

Definition step (v : Version) (e : Env) (ev : Event) : Cmd :=
  match ev with
  | Connect ws id col => onConnection e ws id col
  | Message ws data => onMessage v e ws data
  | Close ws => onClose e ws
  | Tick => onTick e
  end.

(** Running the queue, as long as the process lives. *)
Fixpoint run (v : Version) (evs : list (Env * Event)) (w : World) : World :=
  match evs with
  | [] => w
  | (e, ev) :: r =>
      if has_uncaught (step v e ev w).2 then (step v e ev w).1
      else run v r (step v e ev w).1
  end.

Inductive reachable (v : Version) : World → Prop :=
  | reachable_init : reachable v initial_world
  | reachable_step w e ev :
      reachable v w → reachable v (step v e ev w).1.

End Engine.

(** ** Vocabulary of the statements *)

(** A question without its answer key. *)
Definition redact (q : QuestionItem) : QuestionItem :=
  mkQuestion (q_id q) (q_prompt q) (q_options q) 0.

(** The score of an identity, with no entry counting as zero. *)
Definition score_of (s : Session) (id : string) : Z := default 0 (scores s !! id).

Definition sum_counts (l : list Z) : Z := foldr Z.add 0 l.

(** What the [answer] handler lets into [session.answers]. *)
Definition valid_option (a : Answer) : Prop :=
  ∃ i, optionIndex a = JInt i ∧ 0 ≤ i ≤ 3.

Definition valid_answers (s : Session) : Prop :=
  map_Forall (λ _ a, valid_option a) (answers s).

(** The moves of the session, whoever triggers them. *)
Inductive session_move (qs : list QuestionItem) (s : Session) : Session → Prop :=
  | move_none : session_move qs s s
  | move_start t :
      phase s = Lobby ∨ phase s = Ended →
      session_move qs s (mkSession Question 0 (Some (t + QUESTION_DURATION_MS)) ∅ ∅)
  | move_answer id i t :
      phase s = Question → answers s !! id = None → 0 ≤ i ≤ 3 →
      session_move qs s
        (mkSession (phase s) (questionIndex s) (endsAt s)
           (<[id := mkAnswer (JInt i) t]> (answers s)) (scores s))
  | move_reveal :
      phase s = Question →
      session_move qs s
        (mkSession Reveal (questionIndex s) None (answers s)
           (match currentQuestion qs s with
            | Some q => award_all q s
            | None => scores s
            end))
  | move_next t :
      phase s = Reveal → questionIndex s + 1 < Z.of_nat (length qs) →
      session_move qs s
        (mkSession Question (questionIndex s + 1) (Some (t + QUESTION_DURATION_MS)) ∅ (scores s))
  | move_end :
      phase s = Reveal → Z.of_nat (length qs) ≤ questionIndex s + 1 →
      session_move qs s (mkSession Ended (questionIndex s) None (answers s) (scores s))
  | move_restart t :
      session_move qs s (mkSession Question 0 (Some (t + QUESTION_DURATION_MS)) ∅ ∅)
  | move_lobby :
      phase s = Ended →
      session_move qs s (mkSession Lobby (-1) None ∅ ∅).

(** A train of timer ticks. *)
Definition ticks (es : list Env) : list (Env * Event) := (λ e, (e, Tick)) <$> es.


(** The events that stay within one game: all but the messages that
    start or reset a game and the frame that ends the process. *)
Definition same_game (ev : Event) : Prop :=
  match ev with
  | Message _ (Some Start) | Message _ (Some (AdminRestart _))
  | Message _ (Some ReturnToLobby) | Message _ (Some NullFrame) => False
  | _ => True
  end.

(** Whether an event is a reveal-to-next transition: a [next] message
    from a registered socket while the phase is [Reveal]. *)
Definition next_fires (ev : Event) (w : World) : bool :=
  match ev with
  | Message ws (Some Next) =>
      bool_decide (is_Some (clients_get ws (clients w))) && in_phase Reveal w
  | _ => false
  end.

(** The number of reveal-to-next transitions of a run. *)
Fixpoint nexts `{JSString} (qs : list QuestionItem) (v : Version)
    (evs : list (Env * Event)) (w : World) : nat :=
  match evs with
  | [] => 0
  | (e, ev) :: r =>
      ((if next_fires ev w then 1 else 0) + nexts qs v r (step qs v e ev w).1)%nat
  end.

(** What a run of the game has completed: the index of the question on
    screen, or the whole bank once the game has ended. *)
Definition game_at (qs : list QuestionItem) (s : Session) (k : nat) : Prop :=
  ((k < length qs)%nat ∧ (phase s = Question ∨ phase s = Reveal) ∧
   questionIndex s = Z.of_nat k) ∨
  (k = length qs ∧ phase s = Ended ∧ endsAt s = None).

(** ** A sample game

    Two players connect and take the names Alice and Bob; Alice starts the
    quiz at time 1003; Alice answers option 0 (correct), Bob option 1; the
    timer reveals the answers at time 16003. *)

Definition at_time (t : Z) : Env := mkEnv t (λ _, true).

Definition alice : ClientMeta := mkMeta "a1b2c3d4" "hsl(10, 70%, 55%)" "Alice".
Definition bob : ClientMeta := mkMeta "e5f6a7b8" "hsl(200, 70%, 55%)" "Bob".

Definition sample_joining : list (Env * Event) := [
  (at_time 1000, Connect 1%nat "a1b2c3d4" "hsl(10, 70%, 55%)");
  (at_time 1000, Connect 2%nat "e5f6a7b8" "hsl(200, 70%, 55%)");
  (at_time 1001, Message 1%nat (Some (SetName (JString "  Alice "))));
  (at_time 1002, Message 2%nat (Some (SetName (JString "Bob"))))
]%string.

Definition sample_answering : list (Env * Event) := [
  (at_time 1004, Message 1%nat (Some (Answer_ (JInt 0))));
  (at_time 1005, Message 2%nat (Some (Answer_ (JInt 1))))
].

Definition sample_lobby : World := run questions Documented sample_joining initial_world.

Definition sample_question : World :=
  (step questions Documented (at_time 1003) (Message 1%nat (Some Start)) sample_lobby).1.

Definition sample_answered : World :=
  run questions Documented sample_answering sample_question.

Definition sample_reveal : World :=
  (step questions Documented (at_time 16003) Tick sample_answered).1.

(** The whole game from its first question: in each round, started at
    time t, Alice answers option 0 and Bob option 1, the timer fires at
    the deadline and Alice sends [next] a second later. *)
Definition sample_round (t : Z) : list (Env * Event) := [
  (at_time (t + 1), Message 1%nat (Some (Answer_ (JInt 0))));
  (at_time (t + 2), Message 2%nat (Some (Answer_ (JInt 1))));
  (at_time (t + 15000), Tick);
  (at_time (t + 16000), Message 1%nat (Some Next))
].

Definition sample_game (rounds : nat) : list (Env * Event) :=
  flat_map (λ k, sample_round (1003 + 16000 * Z.of_nat k)) (List.seq 0 rounds).

(** ** The helper [broadcast] and further vocabulary *)

(** [broadcast(payload, exclude)]: the same frame to every open socket of
    the registry but the excluded one ([None] when the argument is left
    out). *)
Definition broadcast (e : Env) (payload : Frame) (exclude : option nat) : Cmd := λ w,
  (w, flat_map (λ c, if readyOpen e c.1 && negb (bool_decide (Some c.1 = exclude))
                     then [Send c.1 payload]
                     else []) (clients w)).

(** The snapshot a frame carries. *)
Definition frame_state (f : Frame) : Snapshot :=
  match f with
  | InitFrame _ _ _ st => st
  | StateFrame st => st
  end.

(** The number of questions revealed so far in the running game. *)
Definition revealed (s : Session) : Z :=
  match phase s with
  | Lobby => 0
  | Question => questionIndex s
  | Reveal | Ended => questionIndex s + 1
  end.

(** All points on the scoreboard. *)
Definition total_score (sc : gmap string Z) : Z := map_fold (λ _ n acc, n + acc) 0 sc.

(** How many of the answers chose option [c]. *)
Definition tally (c : Z) (l : list Answer) : nat :=
  length (filter (λ a, optionIndex a = JInt c) l).




(** The sockets a list of effects sends to, one occurrence per frame. *)
Definition targets (es : list Effect) : list nat :=
  flat_map (λ x, match x with Send ws _ => [ws] | _ => [] end) es.

(** The state of the question index: out of the bank in the lobby, where
    nothing is recorded, and in the bank elsewhere. *)
Definition index_inv (qs : list QuestionItem) (s : Session) : Prop :=
  (phase s = Lobby ∧ questionIndex s = -1 ∧ answers s = ∅ ∧ scores s = ∅) ∨
  (phase s ≠ Lobby ∧ 0 ≤ questionIndex s < Z.of_nat (length qs)).

Definition score_inv (s : Session) : Prop :=
  (phase s ≠ Lobby → 0 ≤ questionIndex s) ∧
  (∀ id n, scores s !! id = Some n → 1 ≤ n ≤ revealed s).

(** The moves of the registry: a connection, an update of the record of
    a registered socket (which keeps its name or takes a new, non-empty
    one of length at most 24, and keeps its id or takes one of length
    above 4), a removal. *)
Inductive registry_move `{JSString} (cs : list (nat * ClientMeta))
    : list (nat * ClientMeta) → Prop :=
  | registry_same : registry_move cs cs
  | registry_connect ws id col :
      registry_move cs (clients_set ws (mkMeta id col "") cs)
  | registry_update ws old m :
      clients_get ws cs = Some old →
      name m = name old ∨ (name m ≠ ""%string ∧ (js_length (name m) ≤ 24)%nat) →
      clientId m = clientId old ∨ (4 < js_length (clientId m))%nat →
      registry_move cs (clients_set ws m cs)
  | registry_delete ws :
      registry_move cs (clients_delete ws cs).

(** The sample game played to its end, and a third socket that joins
    while the first question is open. *)
Definition sample_ended : World :=
  run questions Documented (sample_game 10) sample_question.

Definition sample_rejoined : World :=
  (onConnection questions (at_time 2000) 3%nat "0f0f0f0f" "hsl(90, 70%, 55%)"
     sample_answered).1.

(** The third socket resumes under an id that is a name every object
    inherits, and takes the name Eve. *)
Definition sample_constructor : World :=
  (onMessage questions Documented (at_time 2500) 3%nat
     (Some (Resume (JString "constructor") (JString "Eve") JUndefined))
     sample_rejoined).1.

(** * Properties *)

Lemma elem_of_flat_map {A B} (f : A → list B) (l : list A) (y : B) :
  y ∈ flat_map f l ↔ ∃ x, x ∈ l ∧ y ∈ f x.
Proof.
  induction l as [|a l IH]; simpl.
  - split; [by intros ?%elem_of_nil|by intros (? & ?%elem_of_nil & _)].
  - rewrite elem_of_app, IH. split.
    + intros [Hy|(x & Hx & Hy)]; [exists a|exists x]; rewrite elem_of_cons; auto.
    + intros (x & [->|Hx]%elem_of_cons & Hy); [by left|right; by exists x].
Qed.

Ltac unfold_cmd :=
  unfold onConnection, onClose, onResume, onSetName, onStart, onAnswer, onNext,
    onAdminRestart, onReturnToLobby, nextQuestion, startQuestion, when, ifelse,
    seq, emit, skip, set_phase, set_questionIndex, set_endsAt, set_answers,
    set_scores, modify_session, modify_clients, broadcastState.

Ltac frames_from_post Hin :=
  simpl in Hin;
  repeat match type of Hin with
         | _ ∈ [] => by apply elem_of_nil in Hin
         | _ ∈ Log _ _ :: _ => apply elem_of_cons in Hin as [Hin|Hin]; [discriminate|]
         | _ ∈ Uncaught _ :: _ => apply elem_of_cons in Hin as [Hin|Hin]; [discriminate|]
         | _ ∈ [Send _ _] =>
             apply list_elem_of_singleton in Hin; injection Hin as -> ->;
             eexists; reflexivity
         | _ ∈ flat_map _ _ =>
             let k := fresh "k" in
             let m := fresh "m" in
             let Hc := fresh "Hc" in
             apply elem_of_flat_map in Hin as ([k m] & Hc & Hin); simpl in Hin;
             destruct (readyOpen _ k); [|by apply elem_of_nil in Hin];
             apply list_elem_of_singleton in Hin; injection Hin as -> ->;
             exists (clientId m); reflexivity
         end.

Ltac frames :=
  let Hin := fresh "Hin" in
  solve [intros Hin; frames_from_post Hin].

Ltac uncaught_absurd Hin :=
  simpl in Hin;
  repeat match type of Hin with
         | _ ∈ [] => by apply elem_of_nil in Hin
         | _ ∈ _ :: _ => apply elem_of_cons in Hin as [Hin|Hin]; [discriminate|]
         | _ ∈ flat_map _ _ =>
             let k := fresh "k" in
             let m := fresh "m" in
             let Hc := fresh "Hc" in
             apply elem_of_flat_map in Hin as ([k m] & Hc & Hin); simpl in Hin;
             destruct (readyOpen _ k); [|by apply elem_of_nil in Hin];
             apply list_elem_of_singleton in Hin; discriminate
         end.

Ltac no_uncaught :=
  let err := fresh "err" in
  let Hin := fresh "Hin" in
  solve [intros err Hin; uncaught_absurd Hin].

Section SessionProperties.

Context {JS : JSString}.

(** ** Elementary facts about the commands *)

Lemma has_property_false {A} (o : gmap string A) k :
  has_property o k = false ↔ o !! k = None ∧ inherited k = false.
Proof.
  unfold has_property. destruct (o !! k); split; try done; by intros [? ?].
Qed.

Lemma has_property_own {A} (o : gmap string A) k :
  is_Some (o !! k) → has_property o k = true.
Proof. intros [a Ha]. unfold has_property. by rewrite Ha. Qed.

Lemma has_property_inherited {A} (o : gmap string A) k :
  inherited k = true → has_property o k = true.
Proof. intros Hk. unfold has_property. by destruct (o !! k). Qed.

Lemma in_phase_true p w : in_phase p w = true ↔ phase (session w) = p.
Proof. unfold in_phase. apply bool_decide_eq_true. Qed.

Lemma in_phase_false p w : in_phase p w = false ↔ phase (session w) ≠ p.
Proof. unfold in_phase. apply bool_decide_eq_false. Qed.

Lemma revealQuestion_skip qs e w :
  phase (session w) ≠ Question → revealQuestion qs e w = (w, []).
Proof.
  intros H. unfold revealQuestion.
  apply in_phase_false in H. by rewrite H.
Qed.

Lemma revealQuestion_session qs e w :
  phase (session w) = Question →
  session (revealQuestion qs e w).1 =
  mkSession Reveal (questionIndex (session w)) None (answers (session w))
    (match currentQuestion qs (session w) with
     | Some q => award_all q (session w)
     | None => scores (session w)
     end).
Proof.
  intros H. unfold revealQuestion.
  apply in_phase_true in H. rewrite H.
  unfold seq, set_phase, set_endsAt, set_scores, modify_session, skip,
    broadcastState, currentQuestion, award_all; simpl.
  destruct (array_get qs (questionIndex (session w))); reflexivity.
Qed.

Lemma revealQuestion_clients qs e w : clients (revealQuestion qs e w).1 = clients w.
Proof.
  unfold revealQuestion. destruct (in_phase Question w); [|reflexivity].
  unfold seq, set_phase, set_endsAt, set_scores, modify_session, skip,
    broadcastState, currentQuestion; simpl.
  destruct (array_get qs (questionIndex (session w))); reflexivity.
Qed.

Lemma array_get_fmap {A B} (f : A → B) (l : list A) i :
  array_get (f <$> l) i = f <$> array_get l i.
Proof.
  unfold array_get. destruct (i <? 0); [reflexivity|]. apply list_lookup_fmap.
Qed.

(** ** C1: the correct index is in a snapshot only during the reveal *)

(** C1. For every viewer, clock reading and world: outside the [Reveal]
    phase the question of the derived snapshot, when there is one, has
    [correct] equal to null, and the whole snapshot is the same for any
    two question banks that differ only in their correct indices (so the
    index is nowhere in the payload); in the [Reveal] phase the snapshot
    carries the current question with [correct] equal to its true correct
    index. *)
Theorem deriveState_correct_only_on_reveal qs e w viewerId :
  (phase (session w) ≠ Reveal →
     (∀ qv, s_question (deriveState qs e w viewerId) = Some qv → v_correct qv = None) ∧
     (∀ qs', redact <$> qs' = redact <$> qs →
        deriveState qs' e w viewerId = deriveState qs e w viewerId)) ∧
  (phase (session w) = Reveal →
     ∀ q, currentQuestion qs (session w) = Some q →
       ∃ qv, s_question (deriveState qs e w viewerId) = Some qv ∧
             v_correct qv = Some (q_correct q)).
Proof.
  split.
  - intros Hph. split.
    + intros qv. cbn. destruct (currentQuestion qs (session w)); [|discriminate].
      intros [= <-]. cbn. by rewrite bool_decide_eq_false_2.
    + intros qs' Heq.
      assert (length qs' = length qs) as Hlen.
      { by rewrite <-(length_fmap redact qs'), Heq, length_fmap. }
      assert (redact <$> currentQuestion qs' (session w) =
              redact <$> currentQuestion qs (session w)) as Hq.
      { unfold currentQuestion. by rewrite <-!array_get_fmap, Heq. }
      unfold deriveState. rewrite Hlen. f_equal.
      rewrite !(bool_decide_eq_false_2 _ Hph).
      destruct (currentQuestion qs' (session w)) as [[]|],
        (currentQuestion qs (session w)) as [[]|];
        unfold redact in Hq; cbn in *; congruence.
  - intros Hph q Hq. cbn. rewrite Hq. eexists. split; [reflexivity|].
    cbn. by rewrite bool_decide_eq_true_2.
Qed.

(** ** Scoring: the fold of [revealQuestion] *)

Lemma strict_eq_num_true n c : strict_eq_num n c = true ↔ n = JInt c.
Proof.
  destruct n as [z|]; simpl; [|split; discriminate].
  rewrite Z.eqb_eq. split; [by intros ->|by intros [= ->]].
Qed.

Lemma award_lookup_ne q sc entry id :
  entry.1 ≠ id → award q sc entry !! id = sc !! id.
Proof.
  intros Hne. unfold award.
  destruct (strict_eq_num _ _); [|reflexivity]. by rewrite lookup_insert_ne.
Qed.

Lemma award_lookup_eq q sc id a :
  award q sc (id, a) !! id =
  if strict_eq_num (optionIndex a) (q_correct q)
  then Some (default 0 (sc !! id) + 1) else sc !! id.
Proof.
  unfold award; simpl.
  destruct (strict_eq_num _ _); [|reflexivity].
  rewrite lookup_insert_eq. f_equal.
  destruct (sc !! id) as [n|]; simpl; [|reflexivity].
  unfold truthy_Z. destruct (Z.eqb_spec n 0); simpl; lia.
Qed.

Lemma foldl_award_notin q (l : list (string * Answer)) sc id :
  id ∉ l.*1 → foldl (award q) sc l !! id = sc !! id.
Proof.
  revert sc. induction l as [|entry l IH]; intros sc Hid; [reflexivity|].
  rewrite fmap_cons, not_elem_of_cons in Hid. destruct Hid as [Hne Hid].
  simpl. rewrite IH by done. by apply award_lookup_ne.
Qed.

Lemma foldl_award_in q (l : list (string * Answer)) sc id a :
  NoDup l.*1 → (id, a) ∈ l →
  foldl (award q) sc l !! id = award q sc (id, a) !! id.
Proof.
  revert sc. induction l as [|[k b] l IH]; intros sc Hnd Hin.
  - by apply elem_of_nil in Hin.
  - rewrite fmap_cons, NoDup_cons in Hnd. destruct Hnd as [Hk Hnd].
    apply elem_of_cons in Hin as [[= <- <-]|Hin]; simpl.
    + by apply foldl_award_notin.
    + assert (k ≠ id) as Hne.
      { intros ->. apply Hk. by apply (list_elem_of_fmap_2 fst _ (id, a)). }
      rewrite IH by done. rewrite !award_lookup_eq.
      by rewrite (award_lookup_ne q sc (k, b) id).
Qed.

Lemma award_all_lookup q s id :
  award_all q s !! id =
  match answers s !! id with
  | Some a =>
      if strict_eq_num (optionIndex a) (q_correct q)
      then Some (default 0 (scores s !! id) + 1) else scores s !! id
  | None => scores s !! id
  end.
Proof.
  unfold award_all, Object_entries.
  destruct (answers s !! id) as [a|] eqn:Ha.
  - rewrite (foldl_award_in q _ _ id a).
    + apply award_lookup_eq.
    + apply NoDup_fst_map_to_list.
    + by apply elem_of_map_to_list.
  - apply foldl_award_notin. intros Hin.
    apply list_elem_of_fmap in Hin as [[k a] [-> Hin]].
    apply elem_of_map_to_list in Hin. simpl in Ha. congruence.
Qed.

(** ** Tallies: the fold of [calcCounts] *)

Lemma count_answer_length counts a : length (count_answer counts a) = length counts.
Proof.
  unfold count_answer. destruct (optionIndex a) as [i|]; [|reflexivity].
  destruct (array_get counts i); [apply length_insert|reflexivity].
Qed.

Lemma count_answer_nonneg counts a :
  Forall (λ c, 0 ≤ c) counts → Forall (λ c, 0 ≤ c) (count_answer counts a).
Proof.
  intros Hall. unfold count_answer. destruct (optionIndex a) as [i|]; [|done].
  unfold array_get. destruct (i <? 0); [done|].
  destruct (counts !! Z.to_nat i) as [c|] eqn:Hc; [|done].
  apply Forall_insert; [done|].
  pose proof (Forall_lookup_1 _ _ _ _ Hall Hc) as Hpos. simpl in Hpos. lia.
Qed.

Lemma sum_counts_insert (l : list Z) (n : nat) c :
  l !! n = Some c → sum_counts (<[n := c + 1]> l) = sum_counts l + 1.
Proof.
  revert n. induction l as [|x l IH]; intros [|n] Hl; simpl in *; try discriminate.
  - injection Hl as ->. lia.
  - rewrite (IH n Hl). lia.
Qed.

Lemma count_answer_sum counts a :
  length counts = 4%nat → valid_option a →
  sum_counts (count_answer counts a) = sum_counts counts + 1.
Proof.
  intros Hlen (i & Hi & Hrange). unfold count_answer, array_get. rewrite Hi.
  destruct (Z.ltb_spec i 0); [lia|].
  destruct (lookup_lt_is_Some_2 counts (Z.to_nat i)) as [c Hc]; [lia|].
  rewrite Hc. by apply sum_counts_insert.
Qed.

Lemma foldl_count_answer_shape l counts :
  Forall (λ c, 0 ≤ c) counts →
  length (foldl count_answer counts l) = length counts ∧
  Forall (λ c, 0 ≤ c) (foldl count_answer counts l).
Proof.
  revert counts. induction l as [|a l IH]; intros counts Hall; [done|].
  simpl. destruct (IH (count_answer counts a)) as [Hlen Hpos].
  - by apply count_answer_nonneg.
  - by rewrite Hlen, count_answer_length.
Qed.

Lemma foldl_count_answer_sum l counts :
  length counts = 4%nat → Forall valid_option l →
  sum_counts (foldl count_answer counts l) = sum_counts counts + Z.of_nat (length l).
Proof.
  revert counts. induction l as [|a l IH]; intros counts Hlen Hall; simpl.
  - lia.
  - apply Forall_cons in Hall as [Ha Hall].
    rewrite IH by (by rewrite ?count_answer_length).
    rewrite count_answer_sum by done. lia.
Qed.

Lemma calcCounts_shape s :
  length (calcCounts s) = 4%nat ∧ Forall (λ c, 0 ≤ c) (calcCounts s).
Proof.
  unfold calcCounts.
  destruct (foldl_count_answer_shape (Object_values (answers s)) (replicate 4 0)) as [-> ?].
  - repeat constructor; lia.
  - done.
Qed.

Lemma calcCounts_sum s :
  valid_answers s → sum_counts (calcCounts s) = Z.of_nat (size (answers s)).
Proof.
  intros Hv. unfold calcCounts.
  rewrite foldl_count_answer_sum.
  - unfold Object_values. by rewrite length_fmap, length_map_to_list.
  - reflexivity.
  - unfold Object_values. apply Forall_fmap, Forall_forall.
    intros [k a] Hin. apply elem_of_map_to_list in Hin. by apply (Hv k a).
Qed.

(** ** Every event moves the session by one of the moves *)

Lemma onTick_move qs e w : session_move qs (session w) (session (onTick qs e w).1).
Proof.
  unfold onTick, when.
  destruct (in_phase Question w) eqn:Hph; simpl; [|apply move_none].
  destruct (endsAt (session w)) as [d|]; [|apply move_none].
  destruct (truthy_Z d && (d <=? now e)); [|apply move_none].
  apply in_phase_true in Hph.
  rewrite revealQuestion_session by done. by apply move_reveal.
Qed.

Lemma onMessage_move qs v e ws message w :
  session_move qs (session w) (session (onMessage qs v e ws message w).1).
Proof.
  unfold onMessage.
  destruct message as [data|]; [|apply move_none].
  destruct (clients_get ws (clients w)) as [meta|]; [|apply move_none].
  destruct data as [id nm col|nm| |n| |password| | |].
  - unfold_cmd. simpl. apply move_none.
  - unfold_cmd. destruct nm; try apply move_none.
    destruct (truthy_string (trim s)); apply move_none.
  - unfold_cmd. destruct (truthy_string (name meta)); simpl; [|apply move_none].
    destruct (in_phase Lobby w) eqn:HL; simpl.
    { apply in_phase_true in HL. destruct v; simpl; apply move_start; auto. }
    destruct (in_phase Ended w) eqn:HE; simpl; [|apply move_none].
    apply in_phase_true in HE. destruct v; simpl; apply move_start; auto.
  - unfold_cmd. destruct (in_phase Question w) eqn:HQ; simpl; [|apply move_none].
    destruct (truthy_string (name meta)); simpl; [|apply move_none].
    destruct n as [i|]; [|apply move_none].
    destruct (Z.ltb_spec i 0); simpl; [apply move_none|].
    destruct (Z.ltb_spec 3 i); simpl; [apply move_none|].
    destruct (has_property (answers (session w)) (clientId meta)) eqn:Ha;
      [apply move_none|].
    apply has_property_false in Ha as [Ha _].
    simpl. apply in_phase_true in HQ. apply move_answer; auto with lia.
  - unfold_cmd. destruct (in_phase Reveal w) eqn:HR; simpl; [|apply move_none].
    apply in_phase_true in HR.
    destruct v.
    + destruct (Z.leb_spec (Z.of_nat (length qs)) (questionIndex (session w) + 1)); simpl.
      { by apply move_end. }
      destruct (Z.ltb_spec (questionIndex (session w) + 1) (Z.of_nat (length qs)));
        simpl; [by apply move_next | lia].
    + destruct (Z.ltb_spec (questionIndex (session w) + 1) (Z.of_nat (length qs))); simpl.
      { by apply move_next. }
      by apply move_end.
  - unfold_cmd. destruct v; simpl; [|apply move_none].
    destruct password; simpl; try apply move_none.
    destruct (String.eqb s ADMIN_PASSWORD); simpl; [apply move_restart|apply move_none].
  - unfold_cmd. destruct v; simpl; [|apply move_none].
    destruct (in_phase Ended w) eqn:HE; simpl; [|apply move_none].
    apply in_phase_true in HE. by apply move_lobby.
  - apply move_none.
  - apply move_none.
Qed.

Lemma step_move qs v e ev w :
  session_move qs (session w) (session (step qs v e ev w).1).
Proof.
  destruct ev as [ws id col|ws data|ws|]; simpl.
  - apply move_none.
  - apply onMessage_move.
  - apply move_none.
  - apply onTick_move.
Qed.

(** ** The one exception that leaves a handler *)

Lemma has_uncaught_true es : has_uncaught es = true ↔ ∃ err, Uncaught err ∈ es.
Proof.
  unfold has_uncaught. rewrite existsb_exists. split.
  - intros ([| |err] & Hin & Hx); try done. exists err. by apply list_elem_of_In.
  - intros (err & Hin). exists (Uncaught err). split; [by apply list_elem_of_In|done].
Qed.

Lemma has_uncaught_false es : (∀ err, Uncaught err ∉ es) → has_uncaught es = false.
Proof.
  intros Hno. destruct (has_uncaught es) eqn:Hu; [|done].
  apply has_uncaught_true in Hu as (err & Hin). by destruct (Hno err).
Qed.

Lemma revealQuestion_no_uncaught qs e w err : Uncaught err ∉ (revealQuestion qs e w).2.
Proof.
  revert err. unfold revealQuestion. destruct (negb (in_phase Question w)); [no_uncaught|].
  unfold_cmd. unfold currentQuestion. simpl.
  destruct (array_get qs (questionIndex (session w))); no_uncaught.
Qed.

Lemma onTick_no_uncaught qs e w : has_uncaught (onTick qs e w).2 = false.
Proof.
  apply has_uncaught_false. unfold onTick, when.
  destruct (in_phase Question w && _); [intros err; apply revealQuestion_no_uncaught|].
  no_uncaught.
Qed.

Lemma onMessage_uncaught qs v e ws message w err :
  Uncaught err ∈ (onMessage qs v e ws message w).2 →
  message = Some NullFrame ∧ is_Some (clients_get ws (clients w)).
Proof.
  revert err. unfold onMessage.
  destruct message as [data|]; [|no_uncaught].
  destruct (clients_get ws (clients w)) as [meta|]; [|no_uncaught].
  destruct data as [cid nm col|nm| |n| |password| | |]; unfold_cmd.
  - no_uncaught.
  - destruct nm; try no_uncaught.
    destruct (truthy_string (trim s)); no_uncaught.
  - destruct (negb (truthy_string (name meta))); [no_uncaught|].
    destruct (in_phase Lobby w || in_phase Ended w); [|no_uncaught].
    destruct v; no_uncaught.
  - destruct (negb (in_phase Question w)); [no_uncaught|].
    destruct (negb (truthy_string (name meta))); [no_uncaught|].
    destruct n as [i|]; [|no_uncaught].
    destruct ((i <? 0) || (3 <? i)); [no_uncaught|].
    destruct (has_property (answers (session w)) (clientId meta)); no_uncaught.
  - destruct (in_phase Reveal w); [|no_uncaught].
    destruct v;
      repeat (match goal with
              | |- context [if ?b then _ else _] => destruct b
              end); no_uncaught.
  - destruct v; [|no_uncaught].
    destruct password; try no_uncaught.
    destruct (String.eqb s ADMIN_PASSWORD); no_uncaught.
  - destruct v; [|no_uncaught].
    destruct (in_phase Ended w); no_uncaught.
  - no_uncaught.
  - intros err _. split; [done|by eexists].
Qed.

Lemma step_uncaught qs v e ev w :
  has_uncaught (step qs v e ev w).2 = true ↔
  ∃ ws, ev = Message ws (Some NullFrame) ∧ is_Some (clients_get ws (clients w)).
Proof.
  split.
  - intros Hu. apply has_uncaught_true in Hu as (err & Hin).
    destruct ev as [ws cid col|ws data|ws|]; simpl in Hin.
    + revert err Hin. unfold_cmd. no_uncaught.
    + apply onMessage_uncaught in Hin as [-> Hreg]. by exists ws.
    + revert err Hin. unfold_cmd. no_uncaught.
    + assert (has_uncaught (onTick qs e w).2 = true) as Hu
        by (apply has_uncaught_true; by exists err).
      by rewrite onTick_no_uncaught in Hu.
  - intros (ws & -> & [meta Hreg]). simpl. unfold onMessage. by rewrite Hreg.
Qed.

Lemma step_same_game qs v e ev w :
  same_game ev → has_uncaught (step qs v e ev w).2 = false.
Proof.
  intros Hev. destruct (has_uncaught (step qs v e ev w).2) eqn:Hu; [|done].
  apply step_uncaught in Hu as (ws & -> & _). done.
Qed.

(** An invariant of the moves holds in every reachable world. *)
Lemma reachable_ind_session qs v (P : Session → Prop) :
  P initial_session →
  (∀ s s', P s → session_move qs s s' → P s') →
  ∀ w, reachable qs v w → P (session w).
Proof.
  intros Hinit Hstep w Hw. induction Hw as [|w e ev Hw IH]; [done|].
  eapply Hstep; [exact IH|apply step_move].
Qed.

Lemma reachable_run qs v evs w : reachable qs v w → reachable qs v (run qs v evs w).
Proof.
  revert w. induction evs as [|[e ev] evs IH]; intros w Hw; [done|].
  simpl. destruct (has_uncaught (step qs v e ev w).2); [by constructor|].
  apply IH. by constructor.
Qed.

(** ** C7: the deadline is set exactly in the question phase *)

(** C7. In every world reachable from the initial lobby by connections,
    messages of any kind, disconnections and timer ticks, in either
    version of the server, [endsAt] is non-null if and only if the phase
    is [Question]. *)
Theorem deadline_set_iff_question qs v w :
  reachable qs v w →
  endsAt (session w) ≠ None ↔ phase (session w) = Question.
Proof.
  revert w. apply (reachable_ind_session qs v
    (λ s, endsAt s ≠ None ↔ phase s = Question)).
  - simpl. split; [congruence|discriminate].
  - intros s s' IH Hmove.
    destruct Hmove as [|t Hph|id i t Hph Ha Hi|Hph|t Hph Hlt|Hph Hle|t|Hph]; simpl;
      try done; try (split; [congruence|discriminate]);
      try (split; [reflexivity|discriminate]).
Qed.

(** ** C10: the tallies *)

Lemma valid_answers_move qs s s' :
  valid_answers s → session_move qs s s' → valid_answers s'.
Proof.
  unfold valid_answers. intros Hv Hmove.
  destruct Hmove as [|t Hph|id i t Hph Ha Hi|Hph|t Hph Hlt|Hph Hle|t|Hph]; simpl;
    try done; try apply map_Forall_empty.
  apply map_Forall_insert_2; [|done]. by exists i.
Qed.

Lemma reachable_valid_answers qs v w : reachable qs v w → valid_answers (session w).
Proof.
  revert w. apply reachable_ind_session.
  - apply map_Forall_empty.
  - apply valid_answers_move.
Qed.

(** C10. In every derived snapshot [counts] has exactly 4 entries, all
    non-negative, and [totalAnswers] is the number of entries of the
    answers map; whenever every recorded [optionIndex] is an integer from
    0 to 3 the four counts add up to [totalAnswers]; and that is the case
    in every reachable world, the [answer] handler being the only writer
    of the map. *)
Theorem counts_shape_and_total qs v e w viewerId :
  length (s_counts (deriveState qs e w viewerId)) = 4%nat ∧
  Forall (λ c, 0 ≤ c) (s_counts (deriveState qs e w viewerId)) ∧
  s_totalAnswers (deriveState qs e w viewerId) = size (answers (session w)) ∧
  (valid_answers (session w) →
     sum_counts (s_counts (deriveState qs e w viewerId)) =
     Z.of_nat (s_totalAnswers (deriveState qs e w viewerId))) ∧
  (reachable qs v w →
     valid_answers (session w) ∧
     sum_counts (s_counts (deriveState qs e w viewerId)) =
     Z.of_nat (s_totalAnswers (deriveState qs e w viewerId))).
Proof.
  simpl. destruct (calcCounts_shape (session w)) as [Hlen Hpos].
  assert (length (Object_keys (answers (session w))) = size (answers (session w))) as Hkeys.
  { unfold Object_keys. by rewrite length_fmap, length_map_to_list. }
  repeat split; try done.
  - intros Hv. rewrite Hkeys. by apply calcCounts_sum.
  - by apply (reachable_valid_answers qs v).
  - rewrite Hkeys. apply calcCounts_sum. by apply (reachable_valid_answers qs v).
Qed.

(** ** C3: one point for a correct answer, nothing otherwise *)

(** C3. When the reveal fires in the [Question] phase on a current
    question [q], the session enters [Reveal]; every identity whose
    recorded answer is [q]'s correct index has its score (zero when it
    has none yet) raised by exactly 1, whatever the time of its answer;
    every identity with another answer or with none keeps its score entry
    as it was. *)
Theorem reveal_awards_one_point qs e w q :
  phase (session w) = Question →
  currentQuestion qs (session w) = Some q →
  phase (session (revealQuestion qs e w).1) = Reveal ∧
  (∀ id a, answers (session w) !! id = Some a →
           optionIndex a = JInt (q_correct q) →
           scores (session (revealQuestion qs e w).1) !! id =
           Some (score_of (session w) id + 1)) ∧
  (∀ id, (∀ a, answers (session w) !! id = Some a →
               optionIndex a ≠ JInt (q_correct q)) →
         scores (session (revealQuestion qs e w).1) !! id = scores (session w) !! id).
Proof.
  intros Hph Hq. rewrite revealQuestion_session by done. rewrite Hq. simpl.
  split; [reflexivity|]. split.
  - intros id a Ha Hopt. rewrite award_all_lookup, Ha.
    apply strict_eq_num_true in Hopt. by rewrite Hopt.
  - intros id Hid. rewrite award_all_lookup.
    destruct (answers (session w) !! id) as [a|]; [|reflexivity].
    destruct (strict_eq_num (optionIndex a) (q_correct q)) eqn:Hopt; [|reflexivity].
    apply strict_eq_num_true in Hopt. by destruct (Hid a).
Qed.

(** ** C9: the reveal fires at most once per question *)

Lemma onTick_session qs e w :
  session (onTick qs e w).1 = session w ∨
  (phase (session w) = Question ∧
   session (onTick qs e w).1 = session (revealQuestion qs e w).1).
Proof.
  unfold onTick, when.
  destruct (in_phase Question w) eqn:Hph; simpl; [|by left].
  destruct (endsAt (session w)) as [d|]; [|by left].
  destruct (truthy_Z d && (d <=? now e)); [|by left].
  right. by apply in_phase_true in Hph.
Qed.

Lemma revealQuestion_env qs e e' w :
  (revealQuestion qs e w).1 = (revealQuestion qs e' w).1.
Proof.
  destruct (decide (phase (session w) = Question)) as [Hph|Hph].
  - destruct (revealQuestion qs e w).1 as [s c] eqn:H1,
      (revealQuestion qs e' w).1 as [s' c'] eqn:H2.
    f_equal.
    + change s with (session (mkWorld s c)). change s' with (session (mkWorld s' c')).
      rewrite <-H1, <-H2. by rewrite !revealQuestion_session.
    + change c with (clients (mkWorld s c)). change c' with (clients (mkWorld s' c')).
      rewrite <-H1, <-H2. by rewrite !revealQuestion_clients.
  - by rewrite !revealQuestion_skip.
Qed.

Lemma run_ticks_cons qs v e es w :
  run qs v (ticks (e :: es)) w = run qs v (ticks es) (onTick qs e w).1.
Proof.
  change (run qs v (ticks (e :: es)) w) with
    (if has_uncaught (onTick qs e w).2 then (onTick qs e w).1
     else run qs v (ticks es) (onTick qs e w).1).
  by rewrite onTick_no_uncaught.
Qed.

Lemma run_ticks_settled qs v es w :
  phase (session w) ≠ Question → run qs v (ticks es) w = w.
Proof.
  revert w. induction es as [|e es IH]; intros w Hph; [done|].
  rewrite run_ticks_cons. unfold onTick, when.
  apply in_phase_false in Hph as Hb. rewrite Hb. simpl. by apply IH.
Qed.

(** C9. The reveal leaves a session that is not in the [Question] phase
    entirely unchanged and sends nothing; hence revealing twice is
    revealing once; and any train of timer ticks performs the
    question-to-reveal move, with its scoring, at most once: the world
    after the ticks is the world before them or the world after a single
    reveal. *)
Theorem reveal_at_most_once qs v e e' w :
  (phase (session w) ≠ Question → revealQuestion qs e w = (w, [])) ∧
  (revealQuestion qs e' (revealQuestion qs e w).1).1 = (revealQuestion qs e w).1 ∧
  (∀ es, run qs v (ticks es) w = w ∨
         run qs v (ticks es) w = (revealQuestion qs e w).1).
Proof.
  assert (∀ w0, phase (session (revealQuestion qs e w0).1) ≠ Question) as Hsettled.
  { intros w0. destruct (decide (phase (session w0) = Question)) as [Hph|Hph].
    - by rewrite revealQuestion_session.
    - by rewrite revealQuestion_skip. }
  split; [apply revealQuestion_skip|]. split.
  - rewrite revealQuestion_skip; [done|apply Hsettled].
  - intros es. revert w. induction es as [|e1 es IH]; intros w; [by left|].
    rewrite run_ticks_cons. unfold onTick, when.
    destruct (in_phase Question w && _) eqn:Hfire.
    + right. rewrite (revealQuestion_env qs e1 e).
      apply run_ticks_settled, Hsettled.
    + apply IH.
Qed.

(** ** C4: starting a game *)

Lemma truthy_string_true s : truthy_string s = true ↔ s ≠ ""%string.
Proof. destruct s; simpl; split; congruence. Qed.

(** C4. A [start] message from a registered connection is accepted if
    and only if the sender's name is non-empty and the phase is [Lobby]
    or [Ended].  Accepted, it leaves the session in phase [Question] at
    question 0 with empty scores, empty answers and the deadline at
    now + 15000 ms, in both versions of the server; otherwise the world is
    unchanged and nothing is sent. *)
Theorem start_accepted_iff qs v e ws meta w :
  clients_get ws (clients w) = Some meta →
  (name meta ≠ ""%string ∧ (phase (session w) = Lobby ∨ phase (session w) = Ended) →
     session (onMessage qs v e ws (Some Start) w).1 =
       mkSession Question 0 (Some (now e + 15000)) ∅ ∅ ∧
     clients (onMessage qs v e ws (Some Start) w).1 = clients w) ∧
  (¬ (name meta ≠ ""%string ∧ (phase (session w) = Lobby ∨ phase (session w) = Ended)) →
     onMessage qs v e ws (Some Start) w = (w, [])) ∧
  ((onMessage qs v e ws (Some Start) w).1 ≠ w ↔
     name meta ≠ ""%string ∧ (phase (session w) = Lobby ∨ phase (session w) = Ended)).
Proof.
  intros Hreg.
  assert (name meta ≠ ""%string ∧ (phase (session w) = Lobby ∨ phase (session w) = Ended) →
     session (onMessage qs v e ws (Some Start) w).1 =
       mkSession Question 0 (Some (now e + 15000)) ∅ ∅ ∧
     clients (onMessage qs v e ws (Some Start) w).1 = clients w) as Hyes.
  { intros [Hname Hph]. unfold onMessage, onStart, when. rewrite Hreg.
    apply truthy_string_true in Hname. rewrite Hname. simpl.
    assert (in_phase Lobby w || in_phase Ended w = true) as ->.
    { apply orb_true_iff. rewrite !in_phase_true. done. }
    destruct v; split; reflexivity. }
  assert (¬ (name meta ≠ ""%string ∧
             (phase (session w) = Lobby ∨ phase (session w) = Ended)) →
     onMessage qs v e ws (Some Start) w = (w, [])) as Hno.
  { intros Hnot. unfold onMessage, onStart, when. rewrite Hreg.
    destruct (truthy_string (name meta)) eqn:Hname; simpl; [|reflexivity].
    destruct (in_phase Lobby w || in_phase Ended w) eqn:Hph; [|reflexivity].
    destruct Hnot. split; [by apply truthy_string_true|].
    apply orb_true_iff in Hph. by rewrite !in_phase_true in Hph. }
  split; [exact Hyes|]. split; [exact Hno|]. split.
  - intros Hchanged.
    destruct (decide (name meta ≠ ""%string ∧
                      (phase (session w) = Lobby ∨ phase (session w) = Ended)))
      as [Hc|Hc]; [done|].
    destruct Hchanged. by rewrite (Hno Hc).
  - intros Hc Heq. destruct (Hyes Hc) as [Hs _]. rewrite Heq in Hs.
    destruct Hc as [_ [Hph|Hph]]; rewrite Hs in Hph; discriminate.
Qed.

(** ** C5: the administrator's restart *)

(** C5. For an [admin-restart] message from a registered connection: if
    its password is the passphrase the version configures, the session
    goes, from any phase, to phase [Question] at question 0 with empty
    scores and answers and the deadline at now + 15000 ms; if its
    password is not the configured passphrase (in particular in the
    version that configures none and does not know the message), the
    world is unchanged and no frame is sent to anybody. *)
Theorem admin_restart_gate qs v e ws meta w password :
  clients_get ws (clients w) = Some meta →
  (∀ p, configured_passphrase v = Some p → password = JString p →
     session (onMessage qs v e ws (Some (AdminRestart password)) w).1 =
       mkSession Question 0 (Some (now e + 15000)) ∅ ∅ ∧
     clients (onMessage qs v e ws (Some (AdminRestart password)) w).1 = clients w) ∧
  ((∀ p, configured_passphrase v = Some p → password ≠ JString p) →
     (onMessage qs v e ws (Some (AdminRestart password)) w).1 = w ∧
     ∀ ws' f, Send ws' f ∉ (onMessage qs v e ws (Some (AdminRestart password)) w).2).
Proof.
  intros Hreg. unfold onMessage. rewrite Hreg. split.
  - intros p Hp ->. destruct v; simpl in Hp; [|discriminate].
    injection Hp as <-. unfold onAdminRestart. rewrite String.eqb_refl.
    split; reflexivity.
  - intros Hwrong. destruct v; simpl.
    + assert (∀ ws' f, Send ws' f ∉
                [Log "Admin restart requested, password:" (Some password);
                 Log "Admin restart failed: incorrect password" None]) as Hlogs.
      { intros ws' f Hin. repeat (apply elem_of_cons in Hin as [Hin|Hin]; [discriminate|]).
        by apply elem_of_nil in Hin. }
      destruct password as [| | | |p|]; try (split; [reflexivity|exact Hlogs]).
      destruct (String.eqb_spec p ADMIN_PASSWORD) as [->|Hne].
      * by destruct (Hwrong ADMIN_PASSWORD).
      * split; [reflexivity|exact Hlogs].
    + split; [reflexivity|]. intros ws' f Hin. by apply elem_of_nil in Hin.
Qed.

(** ** C2: one answer per identity and question *)

Lemma onAnswer_again qs e meta n w :
  is_Some (answers (session w) !! clientId meta) → onAnswer qs e meta n w = (w, []).
Proof.
  intros [a Ha]. unfold onAnswer.
  destruct (negb (in_phase Question w)); [reflexivity|].
  destruct (negb (truthy_string (name meta))); [reflexivity|].
  destruct n as [i|]; [|reflexivity].
  destruct ((i <? 0) || (3 <? i)); [reflexivity|].
  rewrite has_property_own; [reflexivity|by eexists].
Qed.




(** C2 (code bug). The [answer] handler takes an identity to have
    answered when [session.answers[id]] is truthy, and that is so for
    every name an object inherits.  A registered connection whose id is
    such a name (a [resume] gives it one) therefore never has an answer
    recorded: whatever the phase, its name, the option and the answers
    map, its [answer] message leaves the world unchanged and nothing is
    sent, also when it is the first valid answer of the identity in the
    question. *)
Theorem answer_never_recorded_under_inherited_name qs v e ws meta n w :
  clients_get ws (clients w) = Some meta →
  inherited (clientId meta) = true →
  onMessage qs v e ws (Some (Answer_ n)) w = (w, []).
Proof.
  intros Hreg Hinh. unfold onMessage, onAnswer. rewrite Hreg.
  destruct (negb (in_phase Question w)); [reflexivity|].
  destruct (negb (truthy_string (name meta))); [reflexivity|].
  destruct n as [i|]; [|reflexivity].
  destruct ((i <? 0) || (3 <? i)); [reflexivity|].
  by rewrite has_property_inherited.
Qed.

(** ** C6: a game of N questions *)

Lemma onNext_outside qs v e ws w :
  phase (session w) ≠ Reveal → onMessage qs v e ws (Some Next) w = (w, []).
Proof.
  intros Hph. unfold onMessage.
  destruct (clients_get ws (clients w)); [|reflexivity].
  unfold onNext, when. apply in_phase_false in Hph. by rewrite Hph.
Qed.

Lemma onNext_in_reveal qs v e ws meta w :
  clients_get ws (clients w) = Some meta →
  phase (session w) = Reveal →
  clients (onMessage qs v e ws (Some Next) w).1 = clients w ∧
  session (onMessage qs v e ws (Some Next) w).1 =
    if questionIndex (session w) + 1 <? Z.of_nat (length qs)
    then mkSession Question (questionIndex (session w) + 1) (Some (now e + 15000)) ∅
           (scores (session w))
    else mkSession Ended (questionIndex (session w)) None (answers (session w))
           (scores (session w)).
Proof.
  intros Hreg Hph. unfold onMessage. rewrite Hreg.
  unfold onNext, when. apply in_phase_true in Hph. rewrite Hph.
  destruct v; unfold ifelse, nextQuestion, ifelse; simpl.
  - destruct (Z.leb_spec (Z.of_nat (length qs)) (questionIndex (session w) + 1)),
      (Z.ltb_spec (questionIndex (session w) + 1) (Z.of_nat (length qs)));
      try lia; split; reflexivity.
  - destruct (Z.ltb_spec (questionIndex (session w) + 1) (Z.of_nat (length qs)));
      split; reflexivity.
Qed.

Lemma onAnswer_session qs e meta n w :
  phase (session (onAnswer qs e meta n w).1) = phase (session w) ∧
  questionIndex (session (onAnswer qs e meta n w).1) = questionIndex (session w) ∧
  endsAt (session (onAnswer qs e meta n w).1) = endsAt (session w).
Proof.
  unfold onAnswer.
  destruct (negb (in_phase Question w)); [done|].
  destruct (negb (truthy_string (name meta))); [done|].
  destruct n as [i|]; [|done]. destruct ((i <? 0) || (3 <? i)); [done|].
  by destruct (has_property (answers (session w)) (clientId meta)).
Qed.

Lemma game_at_same qs s s' k :
  phase s' = phase s → questionIndex s' = questionIndex s → endsAt s' = endsAt s →
  game_at qs s k → game_at qs s' (k + 0).
Proof.
  unfold game_at. intros -> -> ->. by rewrite Nat.add_0_r.
Qed.

Lemma step_game_at qs v e ev w k :
  same_game ev →
  game_at qs (session w) k →
  game_at qs (session (step qs v e ev w).1) (k + if next_fires ev w then 1 else 0).
Proof.
  intros Hev Hk. destruct ev as [ws cid col|ws [data|]|ws|]; simpl;
    try (by apply (game_at_same qs (session w))).
  - unfold onMessage. destruct (clients_get ws (clients w)) as [meta|] eqn:Hreg.
    2: { destruct data; simpl;
           rewrite ?bool_decide_eq_false_2 by (by intros [? ?]); simpl;
           by apply (game_at_same qs (session w)). }
    destruct data as [cid nm col|nm| |n| |password| | |]; simpl in Hev; try done.
    + by apply (game_at_same qs (session w)).
    + unfold onSetName. destruct nm; try (by apply (game_at_same qs (session w))).
      destruct (truthy_string (trim s)); by apply (game_at_same qs (session w)).
    + destruct (onAnswer_session qs e meta n w) as (Hp & Hi & Hd).
      by apply (game_at_same qs (session w)).
    + rewrite bool_decide_eq_true_2 by (by eexists). simpl.
      destruct (in_phase Reveal w) eqn:Hph.
      * apply in_phase_true in Hph.
        pose proof (onNext_in_reveal qs v e ws meta w Hreg Hph) as [_ Hs].
        unfold onMessage in Hs. rewrite Hreg in Hs. rewrite Hs.
        destruct Hk as [(Hlt & _ & Hidx)|(_ & Hend & _)]; [|congruence].
        rewrite Hidx.
        destruct (Z.ltb_spec (Z.of_nat k + 1) (Z.of_nat (length qs))).
        -- left. simpl. split; [lia|]. split; [by left|lia].
        -- right. simpl. split; [lia|done].
      * apply in_phase_false in Hph.
        pose proof (onNext_outside qs v e ws w Hph) as Hs.
        unfold onMessage in Hs. rewrite Hreg in Hs. rewrite Hs.
        by apply (game_at_same qs (session w)).
    + by apply (game_at_same qs (session w)).
  - destruct (onTick_session qs e w) as [->|[Hph ->]].
    + by apply (game_at_same qs (session w)).
    + rewrite revealQuestion_session by done. rewrite Nat.add_0_r.
      destruct Hk as [(Hlt & _ & Hidx)|(_ & Hend & _)]; [|congruence].
      left. simpl. split; [done|]. split; [by right|done].
Qed.

Lemma run_game_at qs v evs w k :
  Forall (λ x, same_game x.2) evs →
  game_at qs (session w) k →
  game_at qs (session (run qs v evs w)) (k + nexts qs v evs w).
Proof.
  revert w k. induction evs as [|[e ev] evs IH]; intros w k Hall Hk.
  - simpl. by rewrite Nat.add_0_r.
  - apply Forall_cons in Hall as [Hev Hall]. simpl in Hev.
    change (run qs v ((e, ev) :: evs) w) with
      (if has_uncaught (step qs v e ev w).2 then (step qs v e ev w).1
       else run qs v evs (step qs v e ev w).1).
    rewrite step_same_game by done.
    change (nexts qs v ((e, ev) :: evs) w) with
      ((if next_fires ev w then 1 else 0) + nexts qs v evs (step qs v e ev w).1)%nat.
    rewrite Nat.add_assoc. apply IH; [done|]. by apply step_game_at.
Qed.

(** C6. In a bank of N ≥ 1 questions, start in the [Question] phase at
    question 0 and let any events follow that neither start nor reset a
    game: answers of anybody, timer ticks, connections, renamings, [next]
    messages at any moment.  Count the reveal-to-next transitions of the
    run, the [next] messages of registered sockets that arrive in the
    [Reveal] phase.  There are at most N of them; the session is in phase
    [Ended], with the deadline cleared, exactly when there have been N;
    after k < N of them it is at question k, in phase [Question] or
    [Reveal].  Each such transition, whatever has been answered, goes to
    phase [Question] at the next index with the answers cleared and the
    deadline at its own time + 15000 ms if a question remains, and to
    phase [Ended] with the deadline cleared otherwise.  A [next] message
    outside the [Reveal] phase changes nothing. *)
Theorem full_game_ends_after_N qs v w evs :
  (0 < length qs)%nat →
  phase (session w) = Question →
  questionIndex (session w) = 0 →
  Forall (λ x, same_game x.2) evs →
  (nexts qs v evs w ≤ length qs)%nat ∧
  (phase (session (run qs v evs w)) = Ended ↔ nexts qs v evs w = length qs) ∧
  ((nexts qs v evs w < length qs)%nat →
     (phase (session (run qs v evs w)) = Question ∨
      phase (session (run qs v evs w)) = Reveal) ∧
     questionIndex (session (run qs v evs w)) = Z.of_nat (nexts qs v evs w)) ∧
  (nexts qs v evs w = length qs → endsAt (session (run qs v evs w)) = None) ∧
  (∀ e ws meta w0,
     clients_get ws (clients w0) = Some meta → phase (session w0) = Reveal →
     session (onMessage qs v e ws (Some Next) w0).1 =
       if questionIndex (session w0) + 1 <? Z.of_nat (length qs)
       then mkSession Question (questionIndex (session w0) + 1) (Some (now e + 15000)) ∅
              (scores (session w0))
       else mkSession Ended (questionIndex (session w0)) None (answers (session w0))
              (scores (session w0))) ∧
  (∀ e ws w0, phase (session w0) ≠ Reveal →
     onMessage qs v e ws (Some Next) w0 = (w0, [])).
Proof.
  intros HN Hph H0 Hevs.
  assert (game_at qs (session w) 0) as Hstart.
  { left. split; [done|]. split; [by left|done]. }
  pose proof (run_game_at qs v evs w 0 Hevs Hstart) as Hrun. simpl in Hrun.
  unfold game_at in Hrun.
  split; [destruct Hrun as [(? & _)|(-> & _)]; lia|]. split; [|split; [|split; [|split]]].
  - destruct Hrun as [(Hlt & Hp & _)|(Heq & Hp & _)].
    + split; [intros He; destruct Hp; congruence|lia].
    + done.
  - intros Hlt. destruct Hrun as [(_ & Hp & Hi)|(Heq & _)]; [done|lia].
  - intros Heq. destruct Hrun as [(Hlt & _)|(_ & _ & Hd)]; [lia|done].
  - intros e ws meta w0 Hreg Hr. by apply (onNext_in_reveal qs v e ws meta w0).
  - intros e ws w0. apply onNext_outside.
Qed.

(** ** C8: what the derivation reads *)

(** C8 as stated fails: the derivation also reads the clock and the
    registry.  The same session and the same viewer give different
    snapshots at two times of the countdown, and with two registries. *)
Lemma deriveState_not_function_of_session_and_viewer :
  deriveState questions (at_time 2000) sample_question "a1b2c3d4" ≠
  deriveState questions (at_time 3000) sample_question "a1b2c3d4" ∧
  deriveState questions (at_time 2000) (mkWorld (session sample_question) []) "a1b2c3d4" ≠
  deriveState questions (at_time 2000) sample_question "a1b2c3d4".
Proof.
  split; intros Heq.
  - apply (f_equal s_timeLeft) in Heq. vm_compute in Heq. discriminate.
  - apply (f_equal (λ x, length (s_players x))) in Heq. vm_compute in Heq. discriminate.
Qed.

(** C8 (amended). The derivation is a function of the session, the viewer
    id, the clock and the registry.  Two evaluations on the same session
    and viewer id agree on every field except [timeLeft] and [players];
    they agree on [timeLeft] when the clock readings are equal or the
    phase is not [Question], on [players] when the registries are equal,
    and hence produce identical snapshots when clock reading and registry
    are the same, whatever the state of the sockets. *)
Theorem deriveState_reads qs e1 e2 w1 w2 viewerId :
  session w1 = session w2 →
  (s_phase (deriveState qs e1 w1 viewerId) = s_phase (deriveState qs e2 w2 viewerId) ∧
   s_questionIndex (deriveState qs e1 w1 viewerId) =
     s_questionIndex (deriveState qs e2 w2 viewerId) ∧
   s_totalQuestions (deriveState qs e1 w1 viewerId) =
     s_totalQuestions (deriveState qs e2 w2 viewerId) ∧
   s_question (deriveState qs e1 w1 viewerId) = s_question (deriveState qs e2 w2 viewerId) ∧
   s_counts (deriveState qs e1 w1 viewerId) = s_counts (deriveState qs e2 w2 viewerId) ∧
   s_totalAnswers (deriveState qs e1 w1 viewerId) =
     s_totalAnswers (deriveState qs e2 w2 viewerId) ∧
   s_answers (deriveState qs e1 w1 viewerId) = s_answers (deriveState qs e2 w2 viewerId) ∧
   s_scores (deriveState qs e1 w1 viewerId) = s_scores (deriveState qs e2 w2 viewerId) ∧
   s_youAnswered (deriveState qs e1 w1 viewerId) =
     s_youAnswered (deriveState qs e2 w2 viewerId)) ∧
  (now e1 = now e2 ∨ phase (session w1) ≠ Question →
     s_timeLeft (deriveState qs e1 w1 viewerId) = s_timeLeft (deriveState qs e2 w2 viewerId)) ∧
  (clients w1 = clients w2 →
     s_players (deriveState qs e1 w1 viewerId) = s_players (deriveState qs e2 w2 viewerId)) ∧
  (now e1 = now e2 → clients w1 = clients w2 →
     deriveState qs e1 w1 viewerId = deriveState qs e2 w2 viewerId).
Proof.
  intros Hs.
  assert (now e1 = now e2 ∨ phase (session w1) ≠ Question →
          timeLeft e1 (session w1) = timeLeft e2 (session w1)) as Htime.
  { unfold timeLeft. intros [->|Hph]; [reflexivity|].
    destruct (endsAt (session w1)); [|reflexivity].
    by rewrite (bool_decide_eq_false_2 _ Hph). }
  unfold deriveState; simpl. rewrite <-Hs.
  split; [by repeat split|]. split; [exact Htime|]. split.
  - by intros ->.
  - intros Hnow ->. rewrite Htime by (by left). reflexivity.
Qed.

End SessionProperties.

(** ** The sample game, checked *)

Example sample_reveal_outcome :
  phase (session sample_reveal) = Reveal ∧
  calcCounts (session sample_reveal) = [1; 1; 0; 0] ∧
  map_to_list (scores (session sample_reveal)) = [("a1b2c3d4"%string, 1)] ∧
  clients sample_reveal = [(1%nat, alice); (2%nat, bob)].
Proof. vm_compute. repeat split; reflexivity. Qed.

Lemma sample_reveal_reachable : reachable questions Documented sample_reveal.
Proof.
  unfold sample_reveal, sample_answered, sample_question, sample_lobby.
  constructor. apply reachable_run. constructor. apply reachable_run. constructor.
Qed.

(** ** The theorems at the sample game *)

Lemma deriveState_correct_only_on_reveal_witness :
  (phase (session sample_question) ≠ Reveal ∧
   ∀ qv, s_question (deriveState questions (at_time 2000) sample_question "a1b2c3d4")
           = Some qv → v_correct qv = None) ∧
  (phase (session sample_reveal) = Reveal ∧
   ∃ qv, s_question (deriveState questions (at_time 17000) sample_reveal "a1b2c3d4")
           = Some qv ∧ v_correct qv = Some 0).
Proof.
  split.
  - assert (phase (session sample_question) ≠ Reveal) as H by (vm_compute; discriminate).
    split; [exact H|].
    apply (proj1 (deriveState_correct_only_on_reveal questions (at_time 2000)
                    sample_question "a1b2c3d4") H).
  - assert (phase (session sample_reveal) = Reveal) as H by (vm_compute; reflexivity).
    split; [exact H|].
    apply (proj2 (deriveState_correct_only_on_reveal questions (at_time 17000)
                    sample_reveal "a1b2c3d4") H
             (mkQuestion "q1" "What is inflation?"
                ["A general rise in prices"; "A drop in all prices";
                 "Only stock prices rising"; "Interest rates falling"] 0)).
    vm_compute; reflexivity.
Defined.

Lemma answer_never_recorded_under_inherited_name_witness :
  clients_get 3%nat (clients sample_constructor) =
    Some (mkMeta "constructor" "hsl(90, 70%, 55%)" "Eve") ∧
  inherited "constructor" = true ∧
  phase (session sample_constructor) = Question ∧
  answers (session sample_constructor) !! "constructor"%string = None ∧
  onMessage questions Documented (at_time 3000) 3%nat (Some (Answer_ (JInt 0)))
    sample_constructor = (sample_constructor, []).
Proof.
  assert (clients_get 3%nat (clients sample_constructor) =
          Some (mkMeta "constructor" "hsl(90, 70%, 55%)" "Eve")) as Hreg
    by (vm_compute; reflexivity).
  assert (inherited "constructor" = true) as Hinh by (vm_compute; reflexivity).
  split; [exact Hreg|]. split; [exact Hinh|].
  split; [vm_compute; reflexivity|]. split; [vm_compute; reflexivity|].
  apply (answer_never_recorded_under_inherited_name questions Documented (at_time 3000)
           3%nat _ (JInt 0) sample_constructor Hreg Hinh).
Defined.

Lemma reveal_awards_one_point_witness :
  phase (session sample_answered) = Question ∧
  scores (session (revealQuestion questions (at_time 16003) sample_answered).1)
    !! "a1b2c3d4"%string = Some 1 ∧
  scores (session (revealQuestion questions (at_time 16003) sample_answered).1)
    !! "e5f6a7b8"%string = None.
Proof.
  assert (phase (session sample_answered) = Question) as Hph by (vm_compute; reflexivity).
  assert (currentQuestion questions (session sample_answered) =
          Some (mkQuestion "q1" "What is inflation?"
                  ["A general rise in prices"; "A drop in all prices";
                   "Only stock prices rising"; "Interest rates falling"] 0)) as Hq
    by (vm_compute; reflexivity).
  destruct (reveal_awards_one_point questions (at_time 16003) sample_answered _ Hph Hq)
    as (_ & Hright & Hwrong).
  split; [exact Hph|]. split.
  - apply (Hright "a1b2c3d4"%string (mkAnswer (JInt 0) 1004)); vm_compute; reflexivity.
  - rewrite (Hwrong "e5f6a7b8"%string); [vm_compute; reflexivity|].
    intros a Ha. vm_compute in Ha. injection Ha as <-. discriminate.
Defined.

Lemma start_accepted_iff_witness :
  clients_get 1%nat (clients sample_lobby) = Some alice ∧
  session (onMessage questions Documented (at_time 1003) 1%nat (Some Start) sample_lobby).1 =
    mkSession Question 0 (Some 16003) ∅ ∅ ∧
  session (onMessage questions Compact (at_time 1003) 1%nat (Some Start) sample_lobby).1 =
    mkSession Question 0 (Some 16003) ∅ ∅ ∧
  onMessage questions Documented (at_time 20000) 1%nat (Some Start) sample_reveal =
    (sample_reveal, []).
Proof.
  assert (clients_get 1%nat (clients sample_lobby) = Some alice) as Hreg
    by (vm_compute; reflexivity).
  assert (clients_get 1%nat (clients sample_reveal) = Some alice) as Hreg'
    by (vm_compute; reflexivity).
  assert (name alice ≠ ""%string ∧
          (phase (session sample_lobby) = Lobby ∨ phase (session sample_lobby) = Ended))
    as Hok by (split; [discriminate|left; vm_compute; reflexivity]).
  split; [exact Hreg|]. split; [|split].
  - apply (proj1 (start_accepted_iff questions Documented (at_time 1003) 1%nat alice
                    sample_lobby Hreg) Hok).
  - apply (proj1 (start_accepted_iff questions Compact (at_time 1003) 1%nat alice
                    sample_lobby Hreg) Hok).
  - apply (proj1 (proj2 (start_accepted_iff questions Documented (at_time 20000) 1%nat alice
                           sample_reveal Hreg'))).
    intros [_ [H|H]]; vm_compute in H; discriminate.
Defined.

Lemma admin_restart_gate_witness :
  clients_get 2%nat (clients sample_reveal) = Some bob ∧
  session (onMessage questions Documented (at_time 20000) 2%nat
             (Some (AdminRestart (JString "1234"))) sample_reveal).1 =
    mkSession Question 0 (Some 35000) ∅ ∅ ∧
  (onMessage questions Documented (at_time 20000) 2%nat
     (Some (AdminRestart (JString "12345"))) sample_reveal).1 = sample_reveal ∧
  (onMessage questions Compact (at_time 20000) 2%nat
     (Some (AdminRestart (JString "1234"))) sample_reveal).1 = sample_reveal.
Proof.
  assert (clients_get 2%nat (clients sample_reveal) = Some bob) as Hreg
    by (vm_compute; reflexivity).
  split; [exact Hreg|]. split; [|split].
  - apply (proj1 (admin_restart_gate questions Documented (at_time 20000) 2%nat bob
                    sample_reveal (JString "1234") Hreg) "1234"%string);
      reflexivity.
  - apply (proj2 (admin_restart_gate questions Documented (at_time 20000) 2%nat bob
                    sample_reveal (JString "12345") Hreg)).
    intros p [= <-]. discriminate.
  - apply (proj2 (admin_restart_gate questions Compact (at_time 20000) 2%nat bob
                    sample_reveal (JString "1234") Hreg)).
    intros p. discriminate.
Defined.

Lemma full_game_ends_after_N_witness :
  (0 < length questions)%nat ∧
  phase (session sample_question) = Question ∧
  questionIndex (session sample_question) = 0 ∧
  Forall (λ x, same_game x.2) (sample_game 10) ∧
  nexts questions Documented (sample_game 10) sample_question = length questions ∧
  phase (session (run questions Documented (sample_game 10) sample_question)) = Ended.
Proof.
  assert (phase (session sample_question) = Question) as Hph by (vm_compute; reflexivity).
  assert (questionIndex (session sample_question) = 0) as H0 by (vm_compute; reflexivity).
  assert (0 < length questions)%nat as HN by (simpl; lia).
  assert (Forall (λ x, same_game x.2) (sample_game 10)) as Hevs
    by (vm_compute; repeat constructor).
  assert (nexts questions Documented (sample_game 10) sample_question = length questions)
    as Hk by (vm_compute; reflexivity).
  split; [exact HN|]. split; [exact Hph|]. split; [exact H0|]. split; [exact Hevs|].
  split; [exact Hk|].
  destruct (full_game_ends_after_N questions Documented sample_question
              (sample_game 10) HN Hph H0 Hevs) as (_ & Hiff & _).
  exact (proj2 Hiff Hk).
Defined.

Lemma deadline_set_iff_question_witness :
  reachable questions Documented sample_reveal ∧
  (endsAt (session sample_reveal) ≠ None ↔ phase (session sample_reveal) = Question).
Proof.
  split; [exact sample_reveal_reachable|].
  apply (deadline_set_iff_question questions Documented sample_reveal sample_reveal_reachable).
Defined.

Lemma deriveState_reads_witness :
  session sample_reveal = session (mkWorld (session sample_reveal) (clients sample_reveal)) ∧
  deriveState questions (at_time 17000) sample_reveal "a1b2c3d4" =
  deriveState questions (mkEnv 17000 (λ _, false))
    (mkWorld (session sample_reveal) (clients sample_reveal)) "a1b2c3d4".
Proof.
  split; [reflexivity|].
  apply (deriveState_reads questions (at_time 17000) (mkEnv 17000 (λ _, false))
           sample_reveal (mkWorld (session sample_reveal) (clients sample_reveal))
           "a1b2c3d4"); reflexivity.
Defined.

Lemma reveal_at_most_once_witness :
  phase (session sample_reveal) ≠ Question ∧
  revealQuestion questions (at_time 17000) sample_reveal = (sample_reveal, []) ∧
  (run questions Documented (ticks [at_time 16003; at_time 16503; at_time 17003])
     sample_answered = sample_answered ∨
   run questions Documented (ticks [at_time 16003; at_time 16503; at_time 17003])
     sample_answered = (revealQuestion questions (at_time 16003) sample_answered).1).
Proof.
  assert (phase (session sample_reveal) ≠ Question) as Hph by (vm_compute; discriminate).
  split; [exact Hph|]. split.
  - apply (proj1 (reveal_at_most_once questions Documented (at_time 17000) (at_time 17000)
                    sample_reveal) Hph).
  - apply (proj2 (proj2 (reveal_at_most_once questions Documented (at_time 16003)
                           (at_time 16003) sample_answered))).
Defined.

Lemma counts_shape_and_total_witness :
  reachable questions Documented sample_reveal ∧
  sum_counts (s_counts (deriveState questions (at_time 17000) sample_reveal "a1b2c3d4")) =
  Z.of_nat (s_totalAnswers (deriveState questions (at_time 17000) sample_reveal "a1b2c3d4")).
Proof.
  split; [exact sample_reveal_reachable|].
  apply (counts_shape_and_total questions Documented (at_time 17000) sample_reveal "a1b2c3d4").
  exact sample_reveal_reachable.
Defined.

(** * Further properties of the server *)

Section FurtherProperties.

Context {JS : JSString}.

(** ** The countdown *)

(** The [timeLeft] of a snapshot is never negative, is 0 outside the
    [Question] phase and once the deadline is reached, never grows as the
    clock advances, and before a (non-zero) deadline is the time that
    remains to it. *)
Theorem timeLeft_countdown qs e1 e2 w viewerId :
  now e1 ≤ now e2 →
  0 ≤ s_timeLeft (deriveState qs e2 w viewerId) ≤ s_timeLeft (deriveState qs e1 w viewerId) ∧
  (phase (session w) ≠ Question → s_timeLeft (deriveState qs e1 w viewerId) = 0) ∧
  (∀ d, endsAt (session w) = Some d → d ≤ now e2 →
        s_timeLeft (deriveState qs e2 w viewerId) = 0) ∧
  (∀ d, phase (session w) = Question → endsAt (session w) = Some d → d ≠ 0 →
        now e1 ≤ d → s_timeLeft (deriveState qs e1 w viewerId) = d - now e1).
Proof.
  intros Hle. simpl. unfold timeLeft, truthy_Z.
  destruct (endsAt (session w)) as [d|]; [|repeat split; (lia || done)].
  destruct (decide (phase (session w) = Question)) as [Hph|Hph].
  - rewrite (bool_decide_eq_true_2 _ Hph). simpl.
    destruct (Z.eqb_spec d 0) as [->|Hd]; simpl.
    + repeat split; try lia; try done. intros d' _ [= <-] ?. done.
    + repeat split; try lia; try done.
      * intros d' [= <-] ?. lia.
      * intros d' _ [= <-] _ ?. lia.
  - rewrite (bool_decide_eq_false_2 _ Hph). simpl.
    repeat split; try lia; try done.
Qed.

(** A snapshot taken at clock t' of a question that was started at clock
    t, with 0 ≤ t ≤ t', shows max(0, 15000 - (t' - t)) ms left: the full
    15000 at the start, never more, and 0 from t + 15000 on. *)
Theorem startQuestion_countdown qs e e' index w viewerId :
  0 ≤ now e → now e ≤ now e' →
  s_timeLeft (deriveState qs e' (startQuestion qs e index w).1 viewerId) =
    Z.max 0 (15000 - (now e' - now e)) ∧
  s_timeLeft (deriveState qs e (startQuestion qs e index w).1 viewerId) = 15000 ∧
  0 ≤ s_timeLeft (deriveState qs e' (startQuestion qs e index w).1 viewerId) ≤ 15000.
Proof.
  intros H0 Hle. simpl. unfold timeLeft, truthy_Z, QUESTION_DURATION_MS. simpl.
  destruct (Z.eqb_spec (now e + 15000) 0); [lia|]. simpl. lia.
Qed.

(** The timer callback reveals the question exactly when the phase is
    [Question], the deadline is a non-zero number and the clock has
    reached it, and then the countdown shown is 0; in every other case,
    in particular before the deadline, it does nothing. *)
Theorem onTick_fires_iff qs e w viewerId :
  (∀ d, phase (session w) = Question → endsAt (session w) = Some d → d ≠ 0 →
        d ≤ now e →
        onTick qs e w = revealQuestion qs e w ∧
        phase (session (onTick qs e w).1) = Reveal ∧
        s_timeLeft (deriveState qs e w viewerId) = 0) ∧
  (¬ (phase (session w) = Question ∧
      ∃ d, endsAt (session w) = Some d ∧ d ≠ 0 ∧ d ≤ now e) →
   onTick qs e w = (w, [])).
Proof.
  split.
  - intros d Hph Hd Hnz Hle. unfold onTick, when.
    apply in_phase_true in Hph as Hb. rewrite Hb, Hd. unfold truthy_Z.
    destruct (Z.eqb_spec d 0); [done|]. destruct (Z.leb_spec d (now e)); [|lia].
    simpl. split; [done|]. split.
    + by rewrite revealQuestion_session.
    + unfold timeLeft. rewrite Hd, (bool_decide_eq_true_2 _ Hph). unfold truthy_Z.
      destruct (Z.eqb_spec d 0); [done|]. simpl. lia.
  - intros Hnot. unfold onTick, when.
    destruct (in_phase Question w) eqn:Hb; [|done]. apply in_phase_true in Hb.
    destruct (endsAt (session w)) as [d|] eqn:Hd; [|done]. unfold truthy_Z.
    destruct (Z.eqb_spec d 0); [done|]. destruct (Z.leb_spec d (now e)); [|done].
    destruct Hnot. split; [done|]. by exists d.
Qed.

(** ** Invariants of the running game *)

Lemma index_invariant_move qs s s' :
  0 < Z.of_nat (length qs) →
  index_inv qs s → session_move qs s s' → index_inv qs s'.
Proof.
  unfold index_inv. intros HN Hinv Hmove.
  destruct Hmove as [|t Hph|id i t Hph Ha Hi|Hph|t Hph Hlt|Hph Hle|t|Hph]; simpl;
    try done; try (right; split; [done|lia]); try (by left).
  all: destruct Hinv as [[Hl _]|[_ Hidx]]; [congruence|].
  all: right; split; [congruence || done|lia].
Qed.

(** With a non-empty question bank, in every reachable world: the phase
    is [Lobby] exactly when [questionIndex] is -1, and then there are no
    answers and no scores; in every other phase [questionIndex] points
    into the bank, so the snapshot carries a question exactly outside the
    lobby. *)
Theorem questionIndex_valid qs v e w viewerId :
  (0 < length qs)%nat →
  reachable qs v w →
  (phase (session w) = Lobby ↔ questionIndex (session w) = -1) ∧
  (phase (session w) = Lobby → answers (session w) = ∅ ∧ scores (session w) = ∅) ∧
  (phase (session w) ≠ Lobby → 0 ≤ questionIndex (session w) < Z.of_nat (length qs)) ∧
  (s_question (deriveState qs e w viewerId) = None ↔ phase (session w) = Lobby).
Proof.
  intros HN Hw.
  assert (index_inv qs (session w)) as Hinv.
  { revert w Hw. apply (reachable_ind_session qs v (index_inv qs)).
    - by left.
    - intros s s'. apply index_invariant_move. lia. }
  unfold index_inv in Hinv.
  assert (s_question (deriveState qs e w viewerId) = None ↔
          currentQuestion qs (session w) = None) as Hq.
  { simpl. destruct (currentQuestion qs (session w)); split; done. }
  rewrite Hq. unfold currentQuestion, array_get.
  destruct Hinv as [(Hl & Hi & Ha & Hs)|[Hnl Hidx]].
  - rewrite Hi. simpl. repeat split; done.
  - destruct (Z.ltb_spec (questionIndex (session w)) 0); [lia|].
    destruct (lookup_lt_is_Some_2 qs (Z.to_nat (questionIndex (session w)))) as [q Hq'];
      [lia|].
    rewrite Hq'. repeat split; try done; try lia.
Qed.

Lemma score_bound_move qs s s' :
  score_inv s → session_move qs s s' → score_inv s'.
Proof.
  unfold score_inv. intros [Hidx Hsc] Hmove.
  destruct Hmove as [|t Hph|id i t Hph Ha Hi|Hph|t Hph Hlt|Hph Hle|t|Hph];
    unfold revealed in *; simpl; try done.
  - rewrite Hph in *. split; [intros _; apply Hidx; done|].
    destruct (currentQuestion qs s) as [q|]; simpl.
    + intros id n. rewrite award_all_lookup.
      destruct (answers s !! id) as [a|].
      * destruct (strict_eq_num (optionIndex a) (q_correct q)).
        -- intros [= <-]. destruct (scores s !! id) as [m|] eqn:Hm; simpl.
           ++ specialize (Hsc id m Hm). lia.
           ++ assert (0 ≤ questionIndex s) by (by apply Hidx). lia.
        -- intros Hn. specialize (Hsc id n Hn). lia.
      * intros Hn. specialize (Hsc id n Hn). lia.
    + intros id n Hn. specialize (Hsc id n Hn). lia.
  - rewrite Hph in *. split; [intros _; assert (0 ≤ questionIndex s) by (by apply Hidx); lia|].
    intros id n Hn. specialize (Hsc id n Hn). lia.
  - rewrite Hph in *. split; [intros _; by apply Hidx|done].
Qed.

(** With a non-empty question bank, in every reachable world every score
    on the board is at least 1 and at most the number of questions
    revealed so far in the game (the index of the question on screen,
    plus one once it is revealed), which is at most the size of the bank:
    one question never pays twice. *)
Theorem score_at_most_revealed qs v w id n :
  (0 < length qs)%nat →
  reachable qs v w →
  scores (session w) !! id = Some n →
  1 ≤ n ≤ revealed (session w) ∧ revealed (session w) ≤ Z.of_nat (length qs).
Proof.
  intros HN Hw Hn.
  assert (score_inv (session w)) as [Hidx Hsc].
  { clear Hn. revert w Hw. apply (reachable_ind_session qs v score_inv).
    - split; [done|]. intros id' n' H. simpl in H. by rewrite lookup_empty in H.
    - intros s s'. apply score_bound_move. }
  assert (index_inv qs (session w)) as Hinv.
  { revert w Hw Hn Hidx Hsc. intros w Hw _ _ _. revert w Hw.
    apply (reachable_ind_session qs v (index_inv qs)).
    - by left.
    - intros s s'. apply index_invariant_move. lia. }
  split; [by apply (Hsc id)|].
  unfold revealed. destruct Hinv as [(-> & _)|[Hnl Hidx']]; [lia|].
  destruct (phase (session w)); lia.
Qed.


(** ** The registry *)

Lemma clients_get_set_eq ws m cs : clients_get ws (clients_set ws m cs) = Some m.
Proof.
  unfold clients_get. induction cs as [|[k c] cs IH]; simpl.
  - by rewrite Nat.eqb_refl.
  - destruct (Nat.eqb_spec k ws) as [->|Hne]; simpl.
    + by rewrite Nat.eqb_refl.
    + destruct (Nat.eqb_spec k ws); [done|]. exact IH.
Qed.

Lemma clients_get_set_ne ws ws' m cs :
  ws ≠ ws' → clients_get ws' (clients_set ws m cs) = clients_get ws' cs.
Proof.
  intros Hne. unfold clients_get. induction cs as [|[k c] cs IH]; simpl.
  - by destruct (Nat.eqb_spec ws ws').
  - destruct (Nat.eqb_spec k ws) as [->|Hk]; simpl.
    + by destruct (Nat.eqb_spec ws ws').
    + destruct (Nat.eqb_spec k ws'); [done|]. exact IH.
Qed.

Lemma clients_get_delete_eq ws cs : clients_get ws (clients_delete ws cs) = None.
Proof.
  unfold clients_get, clients_delete. induction cs as [|[k c] cs IH]; simpl; [done|].
  destruct (Nat.eqb_spec k ws) as [->|Hk]; simpl; [exact IH|].
  destruct (Nat.eqb_spec k ws); [done|]. exact IH.
Qed.

Lemma clients_get_delete_ne ws ws' cs :
  ws ≠ ws' → clients_get ws' (clients_delete ws cs) = clients_get ws' cs.
Proof.
  intros Hne. unfold clients_get, clients_delete.
  induction cs as [|[k c] cs IH]; simpl; [done|].
  destruct (Nat.eqb_spec k ws) as [->|Hk]; simpl.
  - destruct (Nat.eqb_spec ws ws'); [done|]. exact IH.
  - destruct (Nat.eqb_spec k ws'); [done|]. exact IH.
Qed.

Lemma clients_get_elem ws m cs : clients_get ws cs = Some m → (ws, m) ∈ cs.
Proof.
  unfold clients_get. induction cs as [|[k c] cs IH]; simpl; [done|].
  destruct (Nat.eqb_spec k ws) as [->|Hk]; simpl.
  - intros [= ->]. apply elem_of_cons. by left.
  - intros H. apply elem_of_cons. right. by apply IH.
Qed.


Lemma clients_set_Forall (P : nat * ClientMeta → Prop) ws m cs :
  P (ws, m) → Forall P cs → Forall P (clients_set ws m cs).
Proof.
  intros Hm Hcs. induction Hcs as [|[k c] cs Hc Hcs IH]; simpl.
  - by constructor.
  - destruct (Nat.eqb_spec k ws); constructor; done.
Qed.

Lemma clients_delete_Forall (P : nat * ClientMeta → Prop) ws cs :
  Forall P cs → Forall P (clients_delete ws cs).
Proof.
  intros Hcs. unfold clients_delete. induction Hcs as [|[k c] cs Hc Hcs IH]; simpl.
  - constructor.
  - destruct (negb (k =? ws)%nat); [by constructor|done].
Qed.

Lemma clients_delete_not_elem ws m cs : (ws, m) ∉ clients_delete ws cs.
Proof.
  unfold clients_delete. induction cs as [|[k c] cs IH]; simpl.
  - apply not_elem_of_nil.
  - destruct (Nat.eqb_spec k ws) as [->|Hk]; simpl; [exact IH|].
    apply not_elem_of_cons. split; [congruence|exact IH].
Qed.

(** ** Who is sent what *)

Lemma elem_of_broadcastState qs e w ws f :
  Send ws f ∈ (broadcastState qs e w).2 ↔
  ∃ meta, (ws, meta) ∈ clients w ∧ readyOpen e ws = true ∧
          f = StateFrame (deriveState qs e w (clientId meta)).
Proof.
  unfold broadcastState. simpl. rewrite elem_of_flat_map. split.
  - intros ([k m] & Hc & Hin). simpl in Hin.
    destruct (readyOpen e k) eqn:Ho; [|by apply elem_of_nil in Hin].
    apply list_elem_of_singleton in Hin. injection Hin as -> ->. by exists m.
  - intros (m & Hc & Ho & ->). exists (ws, m). split; [done|].
    simpl. rewrite Ho. by apply list_elem_of_singleton.
Qed.

Lemma broadcastState_only_sends qs e w x :
  x ∈ (broadcastState qs e w).2 → ∃ ws id, x = Send ws (StateFrame (deriveState qs e w id)).
Proof.
  unfold broadcastState. simpl. rewrite elem_of_flat_map.
  intros ([k m] & Hc & Hin). simpl in Hin.
  destruct (readyOpen e k); [|by apply elem_of_nil in Hin].
  apply list_elem_of_singleton in Hin. by exists k, (clientId m).
Qed.

(** [broadcastState] leaves the world as it is and sends state frames
    only: a socket is sent a frame exactly when it is in the registry and
    open, and the frame is the snapshot derived for the client id
    recorded for that socket; there is one frame per open entry of the
    registry, in its order. *)
Theorem broadcastState_personal qs e w :
  (broadcastState qs e w).1 = w ∧
  (∀ ws f, Send ws f ∈ (broadcastState qs e w).2 ↔
     ∃ meta, (ws, meta) ∈ clients w ∧ readyOpen e ws = true ∧
             f = StateFrame (deriveState qs e w (clientId meta))) ∧
  (∀ line arg, Log line arg ∉ (broadcastState qs e w).2) ∧
  (broadcastState qs e w).2 =
    (λ c, Send c.1 (StateFrame (deriveState qs e w (clientId c.2)))) <$>
      filter (λ c, readyOpen e c.1 = true) (clients w).
Proof.
  split; [reflexivity|]. split; [apply elem_of_broadcastState|]. split.
  - intros line arg Hin. apply broadcastState_only_sends in Hin as (? & ? & ?). done.
  - unfold broadcastState. simpl. induction (clients w) as [|[k m] cs IH]; [done|].
    simpl. rewrite IH. rewrite filter_cons. simpl.
    destruct (readyOpen e k) eqn:Ho.
    + rewrite decide_True by done. done.
    + rewrite decide_False by done. done.
Qed.

(** [broadcast] leaves the world as it is and sends the one payload to
    exactly the sockets of the registry that are open and are not the
    excluded one; with no socket excluded, to all the open ones. *)
Theorem broadcast_skips_excluded e payload exclude w :
  (broadcast e payload exclude w).1 = w ∧
  (∀ ws f, Send ws f ∈ (broadcast e payload exclude w).2 ↔
     f = payload ∧ (∃ meta, (ws, meta) ∈ clients w) ∧
     readyOpen e ws = true ∧ exclude ≠ Some ws) ∧
  (∀ ws f, exclude = Some ws → Send ws f ∉ (broadcast e payload exclude w).2) ∧
  (broadcast e payload None w).2 =
    (λ c, Send c.1 payload) <$> filter (λ c, readyOpen e c.1 = true) (clients w).
Proof.
  assert (∀ ws f, Send ws f ∈ (broadcast e payload exclude w).2 ↔
     f = payload ∧ (∃ meta, (ws, meta) ∈ clients w) ∧
     readyOpen e ws = true ∧ exclude ≠ Some ws) as Hchar.
  { intros ws f. unfold broadcast. simpl. rewrite elem_of_flat_map. split.
    - intros ([k m] & Hc & Hin). simpl in Hin.
      destruct (readyOpen e k) eqn:Ho; simpl in Hin; [|by apply elem_of_nil in Hin].
      destruct (decide (Some k = exclude)) as [Hk|Hk].
      + rewrite (bool_decide_eq_true_2 _ Hk) in Hin. by apply elem_of_nil in Hin.
      + rewrite (bool_decide_eq_false_2 _ Hk) in Hin. simpl in Hin.
        apply list_elem_of_singleton in Hin. injection Hin as -> ->.
        split; [done|]. split; [by exists m|]. split; [done|congruence].
    - intros (-> & (m & Hc) & Ho & Hex). exists (ws, m). split; [done|].
      simpl. rewrite Ho, bool_decide_eq_false_2 by congruence. simpl.
      by apply list_elem_of_singleton. }
  split; [reflexivity|]. split; [exact Hchar|]. split.
  - intros ws f -> Hin. apply Hchar in Hin as (_ & _ & _ & Hex). done.
  - clear Hchar. unfold broadcast. simpl.
    induction (clients w) as [|[k m] cs IH]; [done|].
    simpl. rewrite IH. rewrite filter_cons. simpl.
    by destruct (readyOpen e k) eqn:Ho.
Qed.

Lemma revealQuestion_frames qs e w ws f :
  Send ws f ∈ (revealQuestion qs e w).2 →
  ∃ id, frame_state f = deriveState qs e (revealQuestion qs e w).1 id.
Proof.
  unfold revealQuestion. destruct (negb (in_phase Question w)).
  - frames.
  - unfold_cmd. unfold currentQuestion. simpl.
    destruct (array_get qs (questionIndex (session w))); frames.
Qed.

Lemma onMessage_frames qs v e ws0 message w ws f :
  Send ws f ∈ (onMessage qs v e ws0 message w).2 →
  ∃ id, frame_state f = deriveState qs e (onMessage qs v e ws0 message w).1 id.
Proof.
  unfold onMessage.
  destruct message as [data|]; [|frames].
  destruct (clients_get ws0 (clients w)) as [meta|]; [|frames].
  destruct data as [cid nm col|nm| |n| |password| | |]; unfold_cmd.
  - frames.
  - destruct nm; try (frames).
    destruct (truthy_string (trim s)); frames.
  - destruct (negb (truthy_string (name meta))); [frames|].
    destruct (in_phase Lobby w || in_phase Ended w); [|frames].
    destruct v; frames.
  - destruct (negb (in_phase Question w)); [frames|].
    destruct (negb (truthy_string (name meta))); [frames|].
    destruct n as [i|]; [|frames].
    destruct ((i <? 0) || (3 <? i)); [frames|].
    destruct (has_property (answers (session w)) (clientId meta)); frames.
  - destruct (in_phase Reveal w); [|frames].
    destruct v;
      repeat (match goal with
              | |- context [if ?b then _ else _] => destruct b
              end); frames.
  - destruct v; [|frames].
    destruct password; try (frames).
    destruct (String.eqb s ADMIN_PASSWORD); frames.
  - destruct v; [|frames].
    destruct (in_phase Ended w); frames.
  - frames.
  - frames.
Qed.

Lemma step_frames qs v e ev w ws f :
  Send ws f ∈ (step qs v e ev w).2 →
  ∃ id, frame_state f = deriveState qs e (step qs v e ev w).1 id.
Proof.
  destruct ev as [ws0 cid col|ws0 data|ws0|]; simpl.
  - unfold_cmd. frames.
  - apply onMessage_frames.
  - unfold_cmd. frames.
  - unfold onTick, when.
    destruct (in_phase Question w && _); [apply revealQuestion_frames|].
    frames.
Qed.

(** Every frame an event sends, to anybody, carries a snapshot derived
    from the world as the event leaves it, never from a state in between:
    so the frame shows the phase the session is in after the event, and a
    frame sent while that phase is not [Reveal] carries no correct
    index. *)
Theorem frames_show_post_event_state qs v e ev w ws f :
  Send ws f ∈ (step qs v e ev w).2 →
  (∃ id, frame_state f = deriveState qs e (step qs v e ev w).1 id) ∧
  s_phase (frame_state f) = phase (session (step qs v e ev w).1) ∧
  s_scores (frame_state f) = scores (session (step qs v e ev w).1) ∧
  (phase (session (step qs v e ev w).1) ≠ Reveal →
   ∀ qv, s_question (frame_state f) = Some qv → v_correct qv = None).
Proof.
  intros Hin. destruct (step_frames qs v e ev w ws f Hin) as [id Hf].
  split; [by exists id|]. rewrite Hf. split; [done|]. split; [done|].
  intros Hph qv. simpl.
  destruct (currentQuestion qs (session (step qs v e ev w).1)); [|done].
  intros [= <-]. simpl. by rewrite bool_decide_eq_false_2.
Qed.

(** ** The handlers, case by case *)


(** A [set-name] message from a registered connection with a string
    whose [trim()] is not empty gives that connection [trim()] of the
    string cut by [slice(0, 24)] as its name, a non-empty name whose
    [length] (in UTF-16 code units) is at most 24; its id and colour, the
    other connections and the session stay.  With anything else (no
    string, a string whose [trim()] is empty) the world is unchanged and
    nothing is sent. *)
Theorem set_name_effect qs v e ws meta nm w :
  clients_get ws (clients w) = Some meta →
  (∀ x, nm = JString x → trim x ≠ ""%string →
     session (onMessage qs v e ws (Some (SetName nm)) w).1 = session w ∧
     clients_get ws (clients (onMessage qs v e ws (Some (SetName nm)) w).1) =
       Some (mkMeta (clientId meta) (color meta) (slice0 24 (trim x))) ∧
     slice0 24 (trim x) ≠ ""%string ∧
     (js_length (slice0 24 (trim x)) ≤ 24)%nat ∧
     (∀ ws', ws' ≠ ws →
        clients_get ws' (clients (onMessage qs v e ws (Some (SetName nm)) w).1) =
        clients_get ws' (clients w))) ∧
  ((∀ x, nm = JString x → trim x = ""%string) →
     onMessage qs v e ws (Some (SetName nm)) w = (w, [])).
Proof.
  intros Hreg. unfold onMessage, onSetName. rewrite Hreg. split.
  - intros x -> Hx. apply truthy_string_true in Hx as Hb. rewrite Hb. simpl.
    split; [done|]. split; [apply clients_get_set_eq|].
    split; [by apply slice0_nonempty|]. split; [apply length_slice0|].
    intros ws' Hne. by apply clients_get_set_ne.
  - intros Hblank. destruct nm as [| | | |x|]; try done.
    by rewrite (Hblank x eq_refl).
Qed.

Lemma onResume_world qs e ws meta id nm col w :
  ∃ m,
    (onResume qs e ws meta id nm col w).1 =
      mkWorld (session w) (clients_set ws m (clients w)) ∧
    (onResume qs e ws meta id nm col w).2 =
      (broadcastState qs e (mkWorld (session w) (clients_set ws m (clients w)))).2 ∧
    clientId m =
      match id with
      | JString x => if (4 <? js_length (trim x))%nat then trim x else clientId meta
      | _ => clientId meta
      end ∧
    (name m = name meta ∨ (name m ≠ ""%string ∧ (js_length (name m) ≤ 24)%nat)).
Proof.
  unfold onResume. eexists. split; [reflexivity|]. split; [reflexivity|]. split.
  - destruct id as [| | | |i|], nm as [| | | |y|], col as [| | | |c|]; simpl; try done;
      repeat (match goal with
              | |- context [if ?b then _ else _] => destruct b
              end); done.
  - destruct nm as [| | | |y|].
    5: destruct (truthy_string (trim y)) eqn:Hy.
    5: { right. apply truthy_string_true in Hy.
         destruct col as [| | | |c|]; simpl; try rewrite Hy;
           repeat (match goal with
                   | |- context [if ?b then _ else _] => destruct b
                   end); simpl;
           (split; [by apply slice0_nonempty|apply length_slice0]). }
    all: left; destruct id as [| | | |i|], col as [| | | |c|]; simpl;
      repeat (match goal with
              | |- context [if ?b then _ else _] => destruct b
              end); done.
Qed.


(** ** Every event moves the registry by one of its moves *)

Lemma onAnswer_clients qs e meta n w : clients (onAnswer qs e meta n w).1 = clients w.
Proof.
  unfold onAnswer.
  destruct (negb (in_phase Question w)); [done|].
  destruct (negb (truthy_string (name meta))); [done|].
  destruct n as [i|]; [|done]. destruct ((i <? 0) || (3 <? i)); [done|].
  by destruct (has_property (answers (session w)) (clientId meta)).
Qed.

Lemma onTick_clients qs e w : clients (onTick qs e w).1 = clients w.
Proof.
  unfold onTick, when.
  destruct (in_phase Question w && _); [apply revealQuestion_clients|reflexivity].
Qed.

Lemma game_message_clients qs v e meta data w :
  clients (match data with
           | Start => onStart qs v e meta w
           | Answer_ n => onAnswer qs e meta n w
           | Next => onNext qs v e w
           | AdminRestart password => onAdminRestart qs v e password w
           | ReturnToLobby => onReturnToLobby qs v e w
           | _ => skip w
           end).1 = clients w.
Proof.
  destruct data as [cid nm col|nm| |n| |password| | |]; try done.
  - unfold onStart, when. destruct (negb (truthy_string (name meta))); [done|].
    destruct (in_phase Lobby w || in_phase Ended w); [|done]. by destruct v.
  - apply onAnswer_clients.
  - unfold onNext, when. destruct (in_phase Reveal w); [|done].
    destruct v; unfold ifelse, nextQuestion, ifelse;
      repeat (match goal with
              | |- context [if ?b then _ else _] => destruct b
              end); done.
  - destruct v; [|done]. unfold onAdminRestart.
    destruct password; try done. by destruct (String.eqb s ADMIN_PASSWORD).
  - destruct v; [|done]. unfold onReturnToLobby, when. by destruct (in_phase Ended w).
Qed.

Lemma step_registry_move qs v e ev w :
  registry_move (clients w) (clients (step qs v e ev w).1).
Proof.
  destruct ev as [ws cid col|ws [data|]|ws|]; simpl.
  - apply registry_connect.
  - unfold onMessage. destruct (clients_get ws (clients w)) as [meta|] eqn:Hreg;
      [|apply registry_same].
    destruct data as [cid nm col|nm| |n| |password| | |].
    + destruct (onResume_world qs e ws meta cid nm col w) as (m & -> & _ & Hid & Hname).
      simpl. apply (registry_update _ ws meta m Hreg Hname).
      rewrite Hid. destruct cid as [| | | |x|]; try by left.
      destruct (Nat.ltb_spec 4 (js_length (trim x))); [by right|by left].
    + unfold onSetName. destruct nm as [| | | |x|]; try apply registry_same.
      destruct (truthy_string (trim x)) eqn:Hx; [|apply registry_same].
      simpl. apply (registry_update _ ws meta _ Hreg); simpl; [|by left].
      right. apply truthy_string_true in Hx.
      split; [by apply slice0_nonempty|apply length_slice0].
    + rewrite (game_message_clients qs v e meta Start w). apply registry_same.
    + rewrite (game_message_clients qs v e meta (Answer_ n) w). apply registry_same.
    + rewrite (game_message_clients qs v e meta Next w). apply registry_same.
    + rewrite (game_message_clients qs v e meta (AdminRestart password) w).
      apply registry_same.
    + rewrite (game_message_clients qs v e meta ReturnToLobby w). apply registry_same.
    + apply registry_same.
    + apply registry_same.
  - apply registry_same.
  - apply registry_delete.
  - rewrite onTick_clients. apply registry_same.
Qed.

(** In every reachable world the [length] of every registered name, in
    UTF-16 code units as [slice(0, 24)] counts them, is at most 24. *)
Theorem names_at_most_24 qs v w :
  reachable qs v w →
  Forall (λ c, (js_length (name c.2) ≤ 24)%nat) (clients w).
Proof.
  induction 1 as [|w e ev Hw IH]; [constructor|].
  destruct (step_registry_move qs v e ev w) as [|ws id col|ws old m Hold Hname Hid|ws].
  - done.
  - apply clients_set_Forall; [simpl; rewrite js_length_empty; lia|done].
  - apply clients_set_Forall; [|done]. simpl.
    destruct Hname as [->|[_ Hlen]]; [|done].
    apply clients_get_elem in Hold.
    by apply (proj1 (Forall_forall _ _) IH (ws, old)).
  - by apply clients_delete_Forall.
Qed.

(** ** Connections and disconnections *)

(** A new connection is registered with the id and colour drawn for it
    and an empty name; the session stays; only the newcomer is sent
    something, one [init] frame with its identity and its snapshot.
    Until it takes a name, its [start] and [answer] messages are
    ignored. *)
Theorem new_connection_is_a_spectator qs v e ws id col w :
  session (onConnection qs e ws id col w).1 = session w ∧
  clients_get ws (clients (onConnection qs e ws id col w).1) = Some (mkMeta id col "") ∧
  (onConnection qs e ws id col w).2 =
    [Send ws (InitFrame id col "" (deriveState qs e (onConnection qs e ws id col w).1 id))] ∧
  (∀ e', onMessage qs v e' ws (Some Start) (onConnection qs e ws id col w).1 =
         ((onConnection qs e ws id col w).1, [])) ∧
  (∀ e' n, onMessage qs v e' ws (Some (Answer_ n)) (onConnection qs e ws id col w).1 =
           ((onConnection qs e ws id col w).1, [])).
Proof.
  split; [done|]. split; [apply clients_get_set_eq|]. split; [done|]. split.
  - intros e'. unfold onMessage. simpl. by rewrite clients_get_set_eq.
  - intros e' n. unfold onMessage. simpl. rewrite clients_get_set_eq.
    unfold onAnswer. by destruct (negb (in_phase Question _)).
Qed.

(** When a connection closes it leaves the registry and the roster, the
    other connections stay, and the session stays whole, scores and
    answers of the leaver included; the state is broadcast to the others
    only; any later message from the closed socket is ignored. *)
Theorem close_forgets_connection qs v e ws w :
  session (onClose qs e ws w).1 = session w ∧
  clients_get ws (clients (onClose qs e ws w).1) = None ∧
  (∀ ws', ws' ≠ ws →
     clients_get ws' (clients (onClose qs e ws w).1) = clients_get ws' (clients w)) ∧
  (∀ ws' f, Send ws' f ∈ (onClose qs e ws w).2 → ws' ≠ ws) ∧
  (∀ e' message, onMessage qs v e' ws message (onClose qs e ws w).1 =
                 ((onClose qs e ws w).1, [])).
Proof.
  split; [done|]. split; [apply clients_get_delete_eq|]. split.
  { intros ws' Hne. by apply clients_get_delete_ne. }
  split.
  - intros ws' f Hin -> .
    change (onClose qs e ws w).2 with
      (broadcastState qs e (mkWorld (session w) (clients_delete ws (clients w)))).2 in Hin.
    apply elem_of_broadcastState in Hin as (m & Hc & _). simpl in Hc.
    by apply clients_delete_not_elem in Hc.
  - intros e' message. unfold onMessage. destruct message; [|done].
    simpl. by rewrite clients_get_delete_eq.
Qed.


(** ** The way back to the lobby, and the two versions side by side *)

(** In the documented version a [return-to-lobby] message from a
    registered connection works in the [Ended] phase only: it puts the
    session back to its initial state (lobby, index -1, no deadline, no
    answers, no scores) and keeps the registry; in any other phase the
    world is unchanged and nothing is sent.  The compact version ignores
    the message in every phase. *)
Theorem return_to_lobby_resets qs e ws meta w :
  clients_get ws (clients w) = Some meta →
  (phase (session w) = Ended →
     session (onMessage qs Documented e ws (Some ReturnToLobby) w).1 = initial_session ∧
     clients (onMessage qs Documented e ws (Some ReturnToLobby) w).1 = clients w) ∧
  (phase (session w) ≠ Ended →
     onMessage qs Documented e ws (Some ReturnToLobby) w = (w, [])) ∧
  onMessage qs Compact e ws (Some ReturnToLobby) w = (w, []).
Proof.
  intros Hreg. unfold onMessage. rewrite Hreg. unfold onReturnToLobby, when. split; [|split].
  - intros Hph. apply in_phase_true in Hph. by rewrite Hph.
  - intros Hph. apply in_phase_false in Hph. by rewrite Hph.
  - done.
Qed.

(** On every event but the two messages the compact version does not
    know ([admin-restart], [return-to-lobby]) the two versions of the
    server do the same: the same world results and the same frames are
    sent.  In particular the explicit clearing of the answers in the
    documented [start] and its own test for the last question in [next]
    change nothing. *)
Theorem versions_agree qs e ev w :
  (∀ ws p, ev ≠ Message ws (Some (AdminRestart p))) →
  (∀ ws, ev ≠ Message ws (Some ReturnToLobby)) →
  step qs Documented e ev w = step qs Compact e ev w.
Proof.
  intros Hadmin Hlobby. destruct ev as [ws cid col|ws [data|]|ws|]; simpl; try done.
  unfold onMessage. destruct (clients_get ws (clients w)) as [meta|]; [|done].
  destruct data as [cid nm col|nm| |n| |password| | |]; try done.
  - unfold onNext, when. destruct (in_phase Reveal w); [|done].
    unfold ifelse, nextQuestion, ifelse.
    destruct (Z.leb_spec (Z.of_nat (length qs)) (questionIndex (session w) + 1)),
      (Z.ltb_spec (questionIndex (session w) + 1) (Z.of_nat (length qs)));
      try lia; done.
  - by destruct (Hadmin ws password).
  - by destruct (Hlobby ws).
Qed.

(** ** Tallies and points *)

Lemma count_answer_lookup counts a c :
  0 ≤ c → (Z.to_nat c < length counts)%nat →
  count_answer counts a !! Z.to_nat c =
  (λ k, if decide (optionIndex a = JInt c) then k + 1 else k) <$> counts !! Z.to_nat c.
Proof.
  intros Hc Hlen. unfold count_answer, array_get.
  destruct (lookup_lt_is_Some_2 counts (Z.to_nat c) Hlen) as [k Hk].
  destruct (decide (optionIndex a = JInt c)) as [Heq|Hne].
  - rewrite Heq. destruct (Z.ltb_spec c 0); [lia|]. rewrite Hk.
    by rewrite list_lookup_insert_eq.
  - destruct (optionIndex a) as [i|]; [|by rewrite Hk].
    destruct (Z.ltb_spec i 0); [by rewrite Hk|].
    destruct (counts !! Z.to_nat i) as [x|] eqn:Hx; [|by rewrite Hk].
    assert (i ≠ c) by congruence.
    rewrite list_lookup_insert_ne by lia. by rewrite Hk.
Qed.

Lemma foldl_count_answer_lookup l counts c :
  0 ≤ c → (Z.to_nat c < length counts)%nat →
  foldl count_answer counts l !! Z.to_nat c =
  (λ k, k + Z.of_nat (tally c l)) <$> counts !! Z.to_nat c.
Proof.
  intros Hc. revert counts. induction l as [|a l IH]; intros counts Hlen.
  - unfold tally. simpl. destruct (counts !! Z.to_nat c); simpl; [f_equal; lia|done].
  - change (foldl count_answer counts (a :: l)) with
      (foldl count_answer (count_answer counts a) l).
    rewrite IH by (by rewrite count_answer_length).
    rewrite count_answer_lookup by done.
    unfold tally. rewrite filter_cons.
    destruct (decide (optionIndex a = JInt c));
      (destruct (counts !! Z.to_nat c) as [k|]; simpl; [f_equal; lia|done]).
Qed.

Lemma calcCounts_lookup s c :
  0 ≤ c ≤ 3 →
  calcCounts s !! Z.to_nat c = Some (Z.of_nat (tally c (Object_values (answers s)))).
Proof.
  intros Hc. unfold calcCounts.
  rewrite foldl_count_answer_lookup by (simpl; lia).
  rewrite lookup_replicate_2 by lia. simpl. f_equal.
Qed.

(** For every session and every option c from 0 to 3, [counts[c]] of the
    snapshot is the number of recorded answers whose option is c: an
    answer with any other option, or with one that is no integer, is
    counted nowhere though it is in [totalAnswers]; and a viewer whose
    snapshot shows its own answer c finds itself in [counts[c]]. *)
Theorem counts_are_tallies qs e w viewerId c :
  0 ≤ c ≤ 3 →
  s_counts (deriveState qs e w viewerId) !! Z.to_nat c =
    Some (Z.of_nat (tally c (Object_values (answers (session w))))) ∧
  sum_counts (s_counts (deriveState qs e w viewerId)) =
    Z.of_nat (tally 0 (Object_values (answers (session w))) +
              tally 1 (Object_values (answers (session w))) +
              tally 2 (Object_values (answers (session w))) +
              tally 3 (Object_values (answers (session w)))) ∧
  (s_youAnswered (deriveState qs e w viewerId) = Some (JInt c) →
   ∃ k, s_counts (deriveState qs e w viewerId) !! Z.to_nat c = Some k ∧ 1 ≤ k).
Proof.
  intros Hc. simpl. split; [by apply calcCounts_lookup|]. split.
  - pose proof (calcCounts_lookup (session w) 0 ltac:(lia)) as H0.
    pose proof (calcCounts_lookup (session w) 1 ltac:(lia)) as H1.
    pose proof (calcCounts_lookup (session w) 2 ltac:(lia)) as H2.
    pose proof (calcCounts_lookup (session w) 3 ltac:(lia)) as H3.
    destruct (calcCounts_shape (session w)) as [Hlen _].
    destruct (calcCounts (session w)) as [|k0 [|k1 [|k2 [|k3 [|]]]]]; try done.
    simpl in *. injection H0 as ->. injection H1 as ->.
    injection H2 as ->. injection H3 as ->. lia.
  - destruct (truthy_string viewerId); [|done].
    destruct (answers (session w) !! viewerId) as [a|] eqn:Ha; [|done].
    simpl. intros [= Hopt]. eexists. split; [by apply calcCounts_lookup|].
    assert (a ∈ filter (λ a, optionIndex a = JInt c) (Object_values (answers (session w))))
      as Hin.
    { apply list_elem_of_filter. split; [done|]. unfold Object_values.
      apply (list_elem_of_fmap_2 snd _ (viewerId, a)). by apply elem_of_map_to_list. }
    unfold tally. destruct (filter _ _); [by apply elem_of_nil in Hin|]. simpl. lia.
Qed.

Lemma total_score_insert (sc : gmap string Z) id n :
  total_score (<[id := n]> sc) = total_score sc - default 0 (sc !! id) + n.
Proof.
  unfold total_score.
  assert (∀ (m : gmap string Z) (j1 j2 : string) (z1 z2 y : Z),
            j1 ≠ j2 → m !! j1 = Some z1 → m !! j2 = Some z2 →
            z1 + (z2 + y) = z2 + (z1 + y)) as Hcomm by (intros; lia).
  destruct (sc !! id) as [x|] eqn:Hx; simpl.
  - rewrite <-insert_delete_eq.
    rewrite map_fold_insert_L; [|apply Hcomm|apply lookup_delete_eq].
    rewrite (map_fold_delete_L _ _ id x sc); [lia|apply Hcomm|done].
  - rewrite map_fold_insert_L; [lia|apply Hcomm|done].
Qed.

Lemma total_score_award q sc entry :
  total_score (award q sc entry) =
  total_score sc + (if decide (optionIndex entry.2 = JInt (q_correct q)) then 1 else 0).
Proof.
  unfold award.
  destruct (strict_eq_num (optionIndex entry.2) (q_correct q)) eqn:Heq.
  - apply strict_eq_num_true in Heq. rewrite decide_True by done.
    rewrite total_score_insert.
    destruct (sc !! entry.1) as [n|]; simpl; [|lia].
    unfold truthy_Z. destruct (Z.eqb_spec n 0); simpl; lia.
  - rewrite decide_False; [lia|]. intros Hopt.
    apply strict_eq_num_true in Hopt. congruence.
Qed.

Lemma total_score_award_all q (l : list (string * Answer)) sc :
  total_score (foldl (award q) sc l) = total_score sc + Z.of_nat (tally (q_correct q) l.*2).
Proof.
  revert sc. induction l as [|entry l IH]; intros sc.
  - unfold tally. simpl. lia.
  - change (foldl (award q) sc (entry :: l)) with (foldl (award q) (award q sc entry) l).
    rewrite IH, total_score_award. unfold tally. rewrite fmap_cons, filter_cons.
    destruct (decide (optionIndex entry.2 = JInt (q_correct q))); simpl; lia.
Qed.

(** The reveal hands out exactly as many points as there are recorded
    answers with the correct option: the sum of all scores grows by that
    number, which, for a correct index from 0 to 3, is the count the
    snapshot shows for the correct option. *)
Theorem reveal_pays_the_correct_tally qs e w q viewerId :
  phase (session w) = Question →
  currentQuestion qs (session w) = Some q →
  total_score (scores (session (revealQuestion qs e w).1)) =
    total_score (scores (session w)) +
    Z.of_nat (tally (q_correct q) (Object_values (answers (session w)))) ∧
  (0 ≤ q_correct q ≤ 3 →
   s_counts (deriveState qs e (revealQuestion qs e w).1 viewerId) !! Z.to_nat (q_correct q) =
   Some (total_score (scores (session (revealQuestion qs e w).1)) -
         total_score (scores (session w)))).
Proof.
  intros Hph Hq.
  assert (total_score (scores (session (revealQuestion qs e w).1)) =
          total_score (scores (session w)) +
          Z.of_nat (tally (q_correct q) (Object_values (answers (session w))))) as Htot.
  { rewrite revealQuestion_session by done. rewrite Hq. simpl.
    unfold award_all, Object_entries, Object_values. apply total_score_award_all. }
  split; [exact Htot|]. intros Hc. rewrite Htot. simpl.
  rewrite calcCounts_lookup by done.
  rewrite revealQuestion_session by done. simpl. f_equal. lia.
Qed.

(** ** A player's round: answer, second thoughts, reveal *)

Lemma onMessage_answer_accept qs v e ws meta i w :
  clients_get ws (clients w) = Some meta →
  phase (session w) = Question → name meta ≠ ""%string → 0 ≤ i ≤ 3 →
  answers (session w) !! clientId meta = None →
  inherited (clientId meta) = false →
  (onMessage qs v e ws (Some (Answer_ (JInt i))) w).1 =
  mkWorld (mkSession (phase (session w)) (questionIndex (session w)) (endsAt (session w))
             (<[clientId meta := mkAnswer (JInt i) (now e)]> (answers (session w)))
             (scores (session w)))
          (clients w).
Proof.
  intros Hreg Hph Hname Hi Hfree Hinh. unfold onMessage, onAnswer. rewrite Hreg.
  apply in_phase_true in Hph. rewrite Hph.
  apply truthy_string_true in Hname. rewrite Hname. simpl.
  destruct (Z.ltb_spec i 0); [lia|]. destruct (Z.ltb_spec 3 i); [lia|]. simpl.
  by rewrite (proj2 (has_property_false _ _) (conj Hfree Hinh)).
Qed.

(** A named player who has not answered yet, and whose id is not a name
    every object inherits, answers option i, then tries to change it to
    i', and the question is revealed: the second attempt is ignored, the
    player's score (0 when it had none) grows by 1 if i is the correct
    option and not at all otherwise, whatever i' is, and every other
    identity scores exactly as it would have without this player's
    answer. *)
Theorem answer_then_reveal qs v e1 e2 e3 ws meta i n' w q :
  clients_get ws (clients w) = Some meta →
  phase (session w) = Question → name meta ≠ ""%string → 0 ≤ i ≤ 3 →
  answers (session w) !! clientId meta = None →
  inherited (clientId meta) = false →
  currentQuestion qs (session w) = Some q →
  score_of (session (revealQuestion qs e3
      (onMessage qs v e2 ws (Some (Answer_ n'))
         (onMessage qs v e1 ws (Some (Answer_ (JInt i))) w).1).1).1) (clientId meta) =
    score_of (session w) (clientId meta) + (if decide (i = q_correct q) then 1 else 0) ∧
  (∀ id, id ≠ clientId meta →
     scores (session (revealQuestion qs e3
       (onMessage qs v e2 ws (Some (Answer_ n'))
          (onMessage qs v e1 ws (Some (Answer_ (JInt i))) w).1).1).1) !! id =
     scores (session (revealQuestion qs e3 w).1) !! id).
Proof.
  intros Hreg Hph Hname Hi Hfree Hinh Hq.
  rewrite (onMessage_answer_accept qs v e1 ws meta i w) by done.
  set (w1 := mkWorld _ (clients w)).
  assert (onMessage qs v e2 ws (Some (Answer_ n')) w1 = (w1, [])) as ->.
  { unfold onMessage. simpl. rewrite Hreg. apply onAnswer_again.
    simpl. rewrite lookup_insert_eq. by eexists. }
  simpl. rewrite !revealQuestion_session by done.
  unfold currentQuestion in *. simpl. rewrite Hq. unfold score_of. simpl. split.
  - rewrite award_all_lookup. simpl. rewrite lookup_insert_eq. simpl.
    destruct (Z.eqb_spec i (q_correct q)) as [->|Hne].
    + rewrite decide_True by done. simpl. lia.
    + rewrite decide_False by done. lia.
  - intros id Hid. rewrite !award_all_lookup. simpl.
    by rewrite lookup_insert_ne.
Qed.

(** The deadline is enforced by the timer, not by the [answer] handler: a
    valid first answer (of an identity whose id is not a name every
    object inherits) that arrives after the deadline but before the timer
    has ticked is recorded like any other; once the tick has fired the
    reveal, every [answer] is ignored. *)
Theorem answers_close_at_the_tick qs v e et ws meta i n w d :
  clients_get ws (clients w) = Some meta →
  phase (session w) = Question → name meta ≠ ""%string → 0 ≤ i ≤ 3 →
  answers (session w) !! clientId meta = None →
  inherited (clientId meta) = false →
  endsAt (session w) = Some d → d ≠ 0 →
  (d ≤ now e →
   answers (session (onMessage qs v e ws (Some (Answer_ (JInt i))) w).1) !! clientId meta =
     Some (mkAnswer (JInt i) (now e))) ∧
  (d ≤ now et →
   onMessage qs v e ws (Some (Answer_ n)) (onTick qs et w).1 = ((onTick qs et w).1, [])).
Proof.
  intros Hreg Hph Hname Hi Hfree Hinh Hd Hnz. split.
  - intros _. rewrite (onMessage_answer_accept qs v e ws meta i w) by done.
    simpl. apply lookup_insert_eq.
  - intros Hlate.
    assert (onTick qs et w = revealQuestion qs et w) as ->.
    { unfold onTick, when. apply in_phase_true in Hph as Hb. rewrite Hb, Hd.
      unfold truthy_Z. destruct (Z.eqb_spec d 0); [done|].
      by destruct (Z.leb_spec d (now et)); [|lia]. }
    unfold onMessage. rewrite revealQuestion_clients, Hreg.
    unfold onAnswer.
    assert (in_phase Question (revealQuestion qs et w).1 = false) as ->; [|done].
    apply in_phase_false. by rewrite revealQuestion_session.
Qed.

(** ** One roster entry per socket *)

Lemma clients_set_keys ws m cs :
  (clients_set ws m cs).*1 = cs.*1 ∧ ws ∈ cs.*1 ∨
  (clients_set ws m cs).*1 = cs.*1 ++ [ws] ∧ ws ∉ cs.*1.
Proof.
  induction cs as [|[k c] cs IH].
  - right. split; [done|]. apply not_elem_of_nil.
  - cbn [clients_set fst]. destruct (Nat.eqb_spec k ws) as [->|Hk]; rewrite !fmap_cons.
    + left. split; [done|]. apply elem_of_cons. by left.
    + destruct IH as [[-> Hin]|[-> Hin]].
      * left. split; [done|]. apply elem_of_cons. by right.
      * right. split; [done|]. apply not_elem_of_cons. split; [|done].
        simpl. intros Heq. by apply Hk.
Qed.

Lemma clients_set_NoDup ws m cs : NoDup cs.*1 → NoDup (clients_set ws m cs).*1.
Proof.
  intros Hnd. destruct (clients_set_keys ws m cs) as [[-> _]|[-> Hin]]; [done|].
  apply NoDup_app. split; [done|]. split; [|apply NoDup_singleton].
  intros x Hx ->%list_elem_of_singleton. done.
Qed.

Lemma clients_delete_NoDup ws cs : NoDup cs.*1 → NoDup (clients_delete ws cs).*1.
Proof.
  unfold clients_delete. induction cs as [|[k c] cs IH]; [done|].
  rewrite fmap_cons, NoDup_cons. intros [Hk Hnd]. cbn [List.filter fst].
  destruct (negb (k =? ws)%nat); [|by apply IH].
  rewrite fmap_cons. apply NoDup_cons. split; [|by apply IH].
  intros Hin. apply Hk. apply list_elem_of_fmap in Hin as ([k' c'] & -> & Hin).
  apply list_elem_of_In, List.filter_In in Hin as [Hin _].
  apply (list_elem_of_fmap_2 fst _ (k', c')). by apply list_elem_of_In.
Qed.

Lemma clients_get_of_elem ws m cs :
  NoDup cs.*1 → (ws, m) ∈ cs → clients_get ws cs = Some m.
Proof.
  unfold clients_get. induction cs as [|[k c] cs IH]; intros Hnd Hin.
  - by apply elem_of_nil in Hin.
  - rewrite fmap_cons, NoDup_cons in Hnd. destruct Hnd as [Hk Hnd]. simpl.
    apply elem_of_cons in Hin as [[= <- <-]|Hin].
    + by rewrite Nat.eqb_refl.
    + destruct (Nat.eqb_spec k ws) as [->|Hne]; simpl; [|by apply IH].
      destruct Hk. by apply (list_elem_of_fmap_2 fst _ (ws, m)).
Qed.

Lemma reachable_NoDup_sockets qs v w : reachable qs v w → NoDup (clients w).*1.
Proof.
  induction 1 as [|w e ev Hw IH]; [constructor|].
  destruct (step_registry_move qs v e ev w) as [|ws id col|ws old m Hold Hname Hid|ws].
  - done.
  - by apply clients_set_NoDup.
  - by apply clients_set_NoDup.
  - by apply clients_delete_NoDup.
Qed.

Lemma targets_broadcastState qs e w :
  targets (broadcastState qs e w).2 = filter (λ ws, readyOpen e ws = true) (clients w).*1 ∧
  length (broadcastState qs e w).2 = length (targets (broadcastState qs e w).2).
Proof.
  unfold broadcastState, targets. simpl.
  induction (clients w) as [|[k m] cs [IH1 IH2]]; [done|].
  rewrite fmap_cons, filter_cons. simpl.
  destruct (readyOpen e k) eqn:Ho; simpl; by rewrite IH2, IH1.
Qed.

(** In every reachable world the registry holds each socket at most
    once, so the roster of a snapshot lists each connection once, and a
    broadcast consists of exactly one frame for each open socket of the
    registry, in registry order and to nobody twice: the snapshot for the
    very client id under which the server files that socket's
    messages. *)
Theorem one_entry_per_socket qs v e w viewerId :
  reachable qs v w →
  NoDup (clients w).*1 ∧
  length (s_players (deriveState qs e w viewerId)) = length (clients w) ∧
  targets (broadcastState qs e w).2 =
    filter (λ ws, readyOpen e ws = true) (clients w).*1 ∧
  length (broadcastState qs e w).2 = length (targets (broadcastState qs e w).2) ∧
  NoDup (targets (broadcastState qs e w).2) ∧
  (∀ ws f, Send ws f ∈ (broadcastState qs e w).2 ↔
     ∃ meta, clients_get ws (clients w) = Some meta ∧ readyOpen e ws = true ∧
             f = StateFrame (deriveState qs e w (clientId meta))).
Proof.
  intros Hw. pose proof (reachable_NoDup_sockets qs v w Hw) as Hnd.
  destruct (targets_broadcastState qs e w) as [Ht Hl].
  split; [done|]. split; [simpl; apply length_fmap|]. split; [exact Ht|].
  split; [exact Hl|]. split; [rewrite Ht; by apply NoDup_filter|].
  intros ws f. rewrite elem_of_broadcastState. split.
  - intros (m & Hin & Ho & ->). exists m. split; [by apply clients_get_of_elem|done].
  - intros (m & Hget & Ho & ->). exists m. split; [by apply clients_get_elem|done].
Qed.

(** ** An answer, once recorded, stays *)


End FurtherProperties.

(** ** The further properties at the sample game *)

Lemma sample_clients : clients sample_reveal = [(1%nat, alice); (2%nat, bob)].
Proof. vm_compute. reflexivity. Qed.

Lemma timeLeft_countdown_witness :
  now (at_time 2000) ≤ now (at_time 3000) ∧
  s_timeLeft (deriveState questions (at_time 2000) sample_question "a1b2c3d4") = 14003.
Proof.
  assert (now (at_time 2000) ≤ now (at_time 3000)) as Hle by (simpl; lia).
  split; [exact Hle|].
  destruct (timeLeft_countdown questions (at_time 2000) (at_time 3000) sample_question
              "a1b2c3d4" Hle) as (_ & _ & _ & H).
  apply (H 16003); vm_compute; (reflexivity || discriminate).
Defined.

Lemma startQuestion_countdown_witness :
  0 ≤ now (at_time 1003) ∧
  s_timeLeft (deriveState questions (at_time 6003)
                (startQuestion questions (at_time 1003) 0 sample_lobby).1 "a1b2c3d4") = 10000.
Proof.
  split; [simpl; lia|].
  apply (startQuestion_countdown questions (at_time 1003) (at_time 6003) 0 sample_lobby
           "a1b2c3d4"); simpl; lia.
Defined.

Lemma onTick_fires_iff_witness :
  phase (session (onTick questions (at_time 16003) sample_answered).1) = Reveal ∧
  onTick questions (at_time 5000) sample_answered = (sample_answered, []).
Proof.
  split.
  - apply (proj1 (onTick_fires_iff questions (at_time 16003) sample_answered "a1b2c3d4")
             16003); vm_compute; (reflexivity || discriminate).
  - apply (proj2 (onTick_fires_iff questions (at_time 5000) sample_answered "a1b2c3d4")).
    intros (_ & d & Hd & _ & Hle). vm_compute in Hd. injection Hd as <-.
    vm_compute in Hle. by apply Hle.
Defined.

Lemma questionIndex_valid_witness :
  (0 < length questions)%nat ∧ reachable questions Documented sample_reveal ∧
  0 ≤ questionIndex (session sample_reveal) < 10.
Proof.
  assert (0 < length questions)%nat as HN by (simpl; lia).
  split; [exact HN|]. split; [exact sample_reveal_reachable|].
  apply (questionIndex_valid questions Documented (at_time 17000) sample_reveal "a1b2c3d4"
           HN sample_reveal_reachable).
  vm_compute. discriminate.
Defined.

Lemma score_at_most_revealed_witness :
  scores (session sample_reveal) !! "a1b2c3d4"%string = Some 1 ∧
  1 ≤ 1 ≤ revealed (session sample_reveal).
Proof.
  assert (scores (session sample_reveal) !! "a1b2c3d4"%string = Some 1) as Hs
    by (vm_compute; reflexivity).
  split; [exact Hs|].
  apply (score_at_most_revealed questions Documented sample_reveal "a1b2c3d4" 1);
    [simpl; lia|exact sample_reveal_reachable|exact Hs].
Defined.


Lemma broadcastState_personal_witness :
  Send 1%nat (StateFrame (deriveState questions (at_time 17000) sample_reveal "a1b2c3d4"))
    ∈ (broadcastState questions (at_time 17000) sample_reveal).2.
Proof.
  apply (proj1 (proj2 (broadcastState_personal questions (at_time 17000) sample_reveal))).
  exists alice. rewrite sample_clients. split; [|split; reflexivity].
  apply elem_of_cons. by left.
Defined.

Lemma broadcast_skips_excluded_witness :
  (Send 1%nat (StateFrame (deriveState questions (at_time 17000) sample_reveal ""))
    ∉ (broadcast (at_time 17000)
         (StateFrame (deriveState questions (at_time 17000) sample_reveal ""))
         (Some 1%nat) sample_reveal).2) ∧
  Send 2%nat (StateFrame (deriveState questions (at_time 17000) sample_reveal ""))
    ∈ (broadcast (at_time 17000)
         (StateFrame (deriveState questions (at_time 17000) sample_reveal ""))
         (Some 1%nat) sample_reveal).2.
Proof.
  split.
  - by apply (proj1 (proj2 (proj2 (broadcast_skips_excluded (at_time 17000)
       (StateFrame (deriveState questions (at_time 17000) sample_reveal ""))
       (Some 1%nat) sample_reveal)))).
  - apply (proj1 (proj2 (broadcast_skips_excluded (at_time 17000)
       (StateFrame (deriveState questions (at_time 17000) sample_reveal ""))
       (Some 1%nat) sample_reveal))).
    split; [done|]. split; [|split; [done|discriminate]].
    exists bob. rewrite sample_clients. apply elem_of_cons. right.
    apply elem_of_cons. by left.
Defined.

Lemma frames_show_post_event_state_witness :
  Send 1%nat (StateFrame (deriveState questions (at_time 16003) sample_reveal "a1b2c3d4"))
    ∈ (step questions Documented (at_time 16003) Tick sample_answered).2 ∧
  s_phase (deriveState questions (at_time 16003) sample_reveal "a1b2c3d4") = Reveal.
Proof.
  assert (Send 1%nat
            (StateFrame (deriveState questions (at_time 16003) sample_reveal "a1b2c3d4"))
          ∈ (step questions Documented (at_time 16003) Tick sample_answered).2) as Hin.
  { vm_compute. constructor. }
  split; [exact Hin|].
  destruct (frames_show_post_event_state questions Documented (at_time 16003) Tick
              sample_answered _ _ Hin) as (_ & H & _).
  etrans; [exact H|]. vm_compute. reflexivity.
Defined.


Lemma set_name_effect_witness :
  clients_get 1%nat (clients sample_lobby) = Some alice ∧
  trim "  Alicia " ≠ ""%string ∧
  clients_get 1%nat
    (clients (onMessage questions Documented (at_time 1002) 1%nat
                (Some (SetName (JString "  Alicia "))) sample_lobby).1) =
    Some (mkMeta "a1b2c3d4" "hsl(10, 70%, 55%)" "Alicia").
Proof.
  assert (clients_get 1%nat (clients sample_lobby) = Some alice) as Hreg
    by (vm_compute; reflexivity).
  assert (trim "  Alicia " ≠ ""%string) as Hne by (vm_compute; discriminate).
  split; [exact Hreg|]. split; [exact Hne|].
  destruct (proj1 (set_name_effect questions Documented (at_time 1002) 1%nat alice
                     (JString "  Alicia ") sample_lobby Hreg) "  Alicia "%string eq_refl Hne)
    as (_ & H & _).
  etrans; [exact H|]. vm_compute. reflexivity.
Defined.


Lemma names_at_most_24_witness :
  reachable questions Documented sample_reveal ∧
  Forall (λ c, (js_length (name c.2) ≤ 24)%nat) (clients sample_reveal).
Proof.
  split; [exact sample_reveal_reachable|].
  apply (names_at_most_24 questions Documented sample_reveal sample_reveal_reachable).
Defined.

Lemma new_connection_is_a_spectator_witness :
  onMessage questions Documented (at_time 2600) 3%nat (Some (Answer_ (JInt 0)))
    sample_rejoined = (sample_rejoined, []).
Proof.
  apply (new_connection_is_a_spectator questions Documented (at_time 2000) 3%nat
           "0f0f0f0f" "hsl(90, 70%, 55%)" sample_answered).
Defined.

Lemma close_forgets_connection_witness :
  session (onClose questions (at_time 3000) 1%nat sample_answered).1 =
    session sample_answered ∧
  clients_get 1%nat (clients (onClose questions (at_time 3000) 1%nat sample_answered).1) =
    None.
Proof.
  split; apply (close_forgets_connection questions Documented (at_time 3000) 1%nat
                  sample_answered).
Defined.


Lemma return_to_lobby_resets_witness :
  clients_get 1%nat (clients sample_ended) = Some alice ∧
  phase (session sample_ended) = Ended ∧
  session (onMessage questions Documented (at_time 20000) 1%nat (Some ReturnToLobby)
             sample_ended).1 = initial_session.
Proof.
  assert (clients_get 1%nat (clients sample_ended) = Some alice) as Hreg
    by (vm_compute; reflexivity).
  assert (phase (session sample_ended) = Ended) as Hph by (vm_compute; reflexivity).
  split; [exact Hreg|]. split; [exact Hph|].
  apply (proj1 (return_to_lobby_resets questions (at_time 20000) 1%nat alice sample_ended
                  Hreg) Hph).
Defined.

Lemma versions_agree_witness :
  step questions Documented (at_time 17000) (Message 1%nat (Some Next)) sample_reveal =
  step questions Compact (at_time 17000) (Message 1%nat (Some Next)) sample_reveal.
Proof.
  apply (versions_agree questions (at_time 17000) (Message 1%nat (Some Next)) sample_reveal);
    intros; discriminate.
Defined.

Lemma counts_are_tallies_witness :
  0 ≤ 0 ≤ 3 ∧
  s_counts (deriveState questions (at_time 17000) sample_reveal "a1b2c3d4") !! 0%nat =
    Some (Z.of_nat (tally 0 (Object_values (answers (session sample_reveal))))).
Proof.
  split; [lia|].
  apply (counts_are_tallies questions (at_time 17000) sample_reveal "a1b2c3d4" 0). lia.
Defined.

Lemma reveal_pays_the_correct_tally_witness :
  phase (session sample_answered) = Question ∧
  total_score (scores (session (revealQuestion questions (at_time 16003)
                                  sample_answered).1)) =
    total_score (scores (session sample_answered)) +
    Z.of_nat (tally 0 (Object_values (answers (session sample_answered)))).
Proof.
  assert (phase (session sample_answered) = Question) as Hph by (vm_compute; reflexivity).
  assert (currentQuestion questions (session sample_answered) =
          Some (mkQuestion "q1" "What is inflation?"
                  ["A general rise in prices"; "A drop in all prices";
                   "Only stock prices rising"; "Interest rates falling"] 0)) as Hq
    by (vm_compute; reflexivity).
  split; [exact Hph|].
  apply (reveal_pays_the_correct_tally questions (at_time 16003) sample_answered _
           "a1b2c3d4" Hph Hq).
Defined.

Lemma answer_then_reveal_witness :
  clients_get 1%nat (clients sample_question) = Some alice ∧
  inherited (clientId alice) = false ∧
  score_of (session (revealQuestion questions (at_time 16003)
      (onMessage questions Documented (at_time 1500) 1%nat (Some (Answer_ (JInt 2)))
         (onMessage questions Documented (at_time 1004) 1%nat (Some (Answer_ (JInt 0)))
            sample_question).1).1).1) (clientId alice) =
    score_of (session sample_question) (clientId alice) + 1.
Proof.
  assert (clients_get 1%nat (clients sample_question) = Some alice) as Hreg
    by (vm_compute; reflexivity).
  assert (inherited (clientId alice) = false) as Hinh by (vm_compute; reflexivity).
  split; [exact Hreg|]. split; [exact Hinh|].
  apply (answer_then_reveal questions Documented (at_time 1004) (at_time 1500)
           (at_time 16003) 1%nat alice 0 (JInt 2) sample_question
           (mkQuestion "q1" "What is inflation?"
              ["A general rise in prices"; "A drop in all prices";
               "Only stock prices rising"; "Interest rates falling"] 0) Hreg);
    try (vm_compute; reflexivity); [discriminate|lia].
Defined.

Lemma answers_close_at_the_tick_witness :
  clients_get 1%nat (clients sample_question) = Some alice ∧
  inherited (clientId alice) = false ∧
  endsAt (session sample_question) = Some 16003 ∧
  answers (session (onMessage questions Documented (at_time 16200) 1%nat
                      (Some (Answer_ (JInt 0))) sample_question).1) !! clientId alice =
    Some (mkAnswer (JInt 0) 16200).
Proof.
  assert (clients_get 1%nat (clients sample_question) = Some alice) as Hreg
    by (vm_compute; reflexivity).
  assert (inherited (clientId alice) = false) as Hinh by (vm_compute; reflexivity).
  assert (endsAt (session sample_question) = Some 16003) as Hd by (vm_compute; reflexivity).
  split; [exact Hreg|]. split; [exact Hinh|]. split; [exact Hd|].
  apply (proj1 (answers_close_at_the_tick questions Documented (at_time 16200)
                  (at_time 16500) 1%nat alice 0 (JInt 1) sample_question 16003 Hreg
                  ltac:(vm_compute; reflexivity) ltac:(discriminate) ltac:(lia)
                  ltac:(vm_compute; reflexivity) Hinh Hd ltac:(discriminate))).
  simpl. lia.
Defined.

Lemma one_entry_per_socket_witness :
  reachable questions Documented sample_reveal ∧
  NoDup (clients sample_reveal).*1 ∧
  targets (broadcastState questions (at_time 17000) sample_reveal).2 = [1%nat; 2%nat] ∧
  length (broadcastState questions (at_time 17000) sample_reveal).2 = 2%nat.
Proof.
  split; [exact sample_reveal_reachable|].
  destruct (one_entry_per_socket questions Documented (at_time 17000) sample_reveal
              "a1b2c3d4" sample_reveal_reachable) as (Hnd & _ & Ht & Hl & _).
  split; [exact Hnd|].
  assert (targets (broadcastState questions (at_time 17000) sample_reveal).2 =
          [1%nat; 2%nat]) as Ht'.
  { etrans; [exact Ht|]. vm_compute. reflexivity. }
  split; [exact Ht'|]. etrans; [exact Hl|]. by rewrite Ht'.
Defined.

